(** * ephemeris.sleep: waiting for a Galaxy instance to answer

    A shallow embedding of [src/ephemeris/sleep.py] ([SleepCondition],
    [galaxy_wait], [main]) and the properties of its polling loop.

    The Python code is effectful: it calls [requests.get], writes to
    [sys.stdout] and [sys.stderr], sleeps, breaks out of a [while], returns
    early and lets exceptions propagate.  It is embedded in a small monad of
    state and abrupt completions, so that each definition can be read next to
    the statement it stands for. *)

From Stdlib Require Import ZArith String Ascii List Bool Lia.
Import ListNotations.

Local Open Scope string_scope.
Local Set Warnings "-register-all".
Local Open Scope Z_scope.

(** ** Python values, exceptions, HTTP responses *)

(** The values [json.loads] can produce.  A float is kept as its text. *)
Inductive pyvalue : Type :=
| PyNone
| PyBool (b : bool)
| PyInt (z : Z)
| PyFloat (text : string)
| PyStr (s : string)
| PyList (items : list pyvalue)
| PyDict (items : list (string * pyvalue)).

(** A Python [str]: its characters, as code points.  Slicing counts
    characters, not bytes. *)
Definition text : Type := list N.

(** [t[:n]] *)
Definition slice_to (n : nat) (t : text) : text := firstn n t.

(** The text of an ASCII literal. *)
Definition text_of_string (s : string) : text :=
  map N_of_ascii (list_ascii_of_string s).

(** The exception classes the code can meet.  [ConnectionError] stands for
    [requests.exceptions.ConnectionError] and its subclasses, with the text
    of the exception; [RequestException] for an instance of any other class
    of [requests.exceptions] ([cls] is the class name), none of which derives
    from [ConnectionError]; [ValueError] for the builtin class and its
    subclasses (the JSON decoding errors, [UnicodeEncodeError]);
    [OtherError] for an instance of any other class ([RecursionError],
    [OSError], ...), which derives from neither. *)
Inductive exception : Type :=
| ConnectionError (msg : text)
| RequestException (cls msg : string)
| ValueError
| KeyError (key : string)
| TypeError
| SyntaxError
| OtherError (cls : string).

Definition is_ConnectionError (e : exception) : bool :=
  match e with ConnectionError _ => true | _ => false end.

Definition is_ValueError (e : exception) : bool :=
  match e with ValueError => true | _ => false end.

(** [unicodify(e)]: the text of the exception.  The code asks for it in the
    handler of [ConnectionError] only. *)
Definition unicodify (e : exception) : text :=
  match e with
  | ConnectionError msg => msg
  | _ => []
  end.

(** A dict built by the JSON parser from the members of an object, in order:
    a later member with the same name replaces an earlier one. *)
Fixpoint dict_get (items : list (string * pyvalue)) (key : string)
  : option pyvalue :=
  match items with
  | [] => None
  | (k, v) :: rest =>
      match dict_get rest key with
      | Some v' => Some v'
      | None => if String.eqb k key then Some v else None
      end
  end.

(** [obj[key]] for a string [key]: a dict looks the key up and raises
    [KeyError] when it is absent; lists and strings want integer indices and
    the other values are not subscriptable, which is a [TypeError]. *)
Definition getitem (obj : pyvalue) (key : string) : exception + pyvalue :=
  match obj with
  | PyDict items =>
      match dict_get items key with
      | Some v => inr v
      | None => inl (KeyError key)
      end
  | _ => inl TypeError
  end.

(** What the code uses of a [requests.Response]: its [status_code] and the
    outcome of its [json()] method, which returns the parsed value or raises:
    a [ValueError] when the body is not JSON, and whatever else the parser
    may raise (a [RecursionError] on a body nested too deeply). *)
Record Response : Type := mkResponse {
  status_code : Z;
  json_result : exception + pyvalue
}.

(** ** [SleepCondition] *)

Record SleepCondition : Type := mkSleepCondition { sleep : bool }.

(** [SleepCondition.__init__] *)
Definition SleepCondition_init : SleepCondition := {| sleep := true |}.

(** [SleepCondition.cancel] *)
Definition cancel (self : SleepCondition) : SleepCondition :=
  {| sleep := false |}.

(** The object is shared with its owner, who may call [cancel] at any time.
    A shared condition is given by what the loop finds in it each time it
    evaluates [sleep_condition.sleep]: [shared n] is the object at the [n]-th
    evaluation, counted from 0. *)
Definition SharedCondition : Type := nat -> SleepCondition.

(** ** Program state and output *)

(** An argument of a [%] format. *)
Inductive fmt_arg : Type :=
| ArgInt (z : Z)
| ArgStr (s : text)
| ArgResponse (status : Z)      (* [result.__str__()] *)
| ArgValue (v : pyvalue).

(** One [write]: the format string, spelled as in the source (escape
    sequences are not expanded), and its arguments. *)
Definition output : Type := (string * list fmt_arg)%type.

(** The world outside the program.  The network: what the [n]-th call of
    [requests.get] (counted from 0) does for the given URL, raise or return a
    response; a world applied to [n] and a URL is that answer.  The console:
    what [sys.stdout.write] of a text, or the [flush] after it, raises, if
    anything, once [n] requests have been made (a [UnicodeEncodeError] on a
    text that standard output cannot encode, an [OSError] on a closed
    pipe). *)
Record World : Type := mkWorld {
  answer :> nat -> string -> exception + Response;
  stdout_fault : nat -> output -> option exception
}.

(** A world whose console takes every write. *)
Definition on_reliable_console (answer : nat -> string -> exception + Response)
  : World :=
  {| answer := answer; stdout_fault := fun _ _ => None |}.

Record State : Type := mkState {
  count : Z;                     (* the local variable [count] *)
  checks : nat;                  (* evaluations of the loop condition *)
  requests_log : list string;    (* URLs given to [requests.get], oldest first *)
  sleeps : list Z;               (* arguments of [time.sleep], oldest first *)
  stdout : list output;
  stderr : list output
}.

Definition init_state : State :=
  {| count := 0; checks := 0; requests_log := []; sleeps := [];
     stdout := []; stderr := [] |}.

Definition set_count (c : Z) (st : State) : State :=
  mkState c (checks st) (requests_log st) (sleeps st) (stdout st) (stderr st).

Definition add_check (st : State) : State :=
  mkState (count st) (S (checks st)) (requests_log st) (sleeps st)
          (stdout st) (stderr st).

Definition add_request (url : string) (st : State) : State :=
  mkState (count st) (checks st) (requests_log st ++ [url]) (sleeps st)
          (stdout st) (stderr st).

Definition add_sleep (secs : Z) (st : State) : State :=
  mkState (count st) (checks st) (requests_log st) (sleeps st ++ [secs])
          (stdout st) (stderr st).

Definition add_stdout (o : output) (st : State) : State :=
  mkState (count st) (checks st) (requests_log st) (sleeps st)
          (stdout st ++ [o]) (stderr st).

Definition add_stderr (o : output) (st : State) : State :=
  mkState (count st) (checks st) (requests_log st) (sleeps st)
          (stdout st) (stderr st ++ [o]).

(** ** The monad: state and abrupt completion *)

(** How a statement can end other than normally.  [Unfinished] is a loop
    still running when the fuel of the model is spent. *)
Inductive abrupt : Type :=
| Break
| Return (b : bool)
| Raise (e : exception)
| Unfinished.

Inductive signal (A : Type) : Type :=
| Normal (a : A)
| Abrupt (c : abrupt).

Arguments Normal {A} a.
Arguments Abrupt {A} c.

Definition M (A : Type) : Type := State -> signal A * State.

Definition ret {A} (a : A) : M A := fun st => (Normal a, st).

Definition bind {A B} (m : M A) (f : A -> M B) : M B :=
  fun st =>
    match m st with
    | (Normal a, st') => f a st'
    | (Abrupt c, st') => (Abrupt c, st')
    end.

Declare Scope py_scope.
Delimit Scope py_scope with py.
Notation "x <- m ;; k" := (bind m (fun x => k))
  (at level 61, m at next level, right associativity) : py_scope.
Notation "m ;; k" := (bind m (fun _ => k))
  (at level 61, right associativity) : py_scope.
Local Open Scope py_scope.

Definition abort {A} (c : abrupt) : M A := fun st => (Abrupt c, st).
Definition break_ : M unit := abort Break.
Definition return_ {A} (b : bool) : M A := abort (Return b).
Definition raise {A} (e : exception) : M A := abort (Raise e).

Definition pass : M unit := ret tt.

Definition when (b : bool) (m : M unit) : M unit := if b then m else pass.

Definition modify (f : State -> State) : M unit := fun st => (Normal tt, f st).

Definition gets {A} (f : State -> A) : M A := fun st => (Normal (f st), st).

(** [try: m except <class> as e: handler e] *)
Definition try_except {A} (m : M A) (caught : exception -> bool)
    (handler : exception -> M A) : M A :=
  fun st =>
    match m st with
    | (Abrupt (Raise e), st') =>
        if caught e then handler e st' else (Abrupt (Raise e), st')
    | r => r
    end.

(** [while cond: body], for at most [fuel] evaluations of [cond]. *)
Fixpoint while_ (fuel : nat) (cond : M bool) (body : M unit) : M unit :=
  match fuel with
  | O => abort Unfinished
  | S fuel' =>
      fun st =>
        match cond st with
        | (Normal true, st1) =>
            match body st1 with
            | (Normal _, st2) => while_ fuel' cond body st2
            | (Abrupt Break, st2) => (Normal tt, st2)
            | (Abrupt c, st2) => (Abrupt c, st2)
            end
        | (Normal false, st1) => (Normal tt, st1)
        | (Abrupt c, st1) => (Abrupt c, st1)
        end
  end.

(** ** The primitives the code calls *)

Definition lift {A} (r : exception + A) : M A :=
  match r with
  | inl e => raise e
  | inr a => ret a
  end.

(** [requests.get(url)] *)
Definition requests_get (w : World) (url : string) : M Response :=
  n <- gets (fun st => length (requests_log st)) ;;
  modify (add_request url) ;;
  lift (w n url).

(** [result.json()] *)
Definition json (result : Response) : M pyvalue := lift (json_result result).

(** [sys.stdout.write(fmt % args)] followed by [sys.stdout.flush()]: the text
    reaches standard output, or the console raises and nothing is written. *)
Definition stdout_write (w : World) (fmt : string) (args : list fmt_arg)
  : M unit :=
  n <- gets (fun st => length (requests_log st)) ;;
  match stdout_fault w n (fmt, args) with
  | Some e => raise e
  | None => modify (add_stdout (fmt, args))
  end.

(** [sys.stderr.write(fmt)], of the one fixed ASCII line of line 90; it is
    taken to succeed. *)
Definition stderr_write (fmt : string) : M unit :=
  modify (add_stderr (fmt, [])).

(** [time.sleep(secs)] *)
Definition time_sleep (secs : Z) : M unit := modify (add_sleep secs).

(** [sleep_condition.sleep], read as the loop condition. *)
Definition read_sleep (sleep_condition : SharedCondition) : M bool :=
  n <- gets checks ;;
  modify add_check ;;
  ret (sleep (sleep_condition n)).

(** Truth value of an optional string: [None] and [""] are false. *)
Definition truthy (s : option string) : bool :=
  match s with
  | None => false
  | Some s => negb (String.eqb s "")
  end.

Definition str_of (s : option string) : string :=
  match s with
  | None => "None"
  | Some s => s
  end.

(** ** [galaxy_wait] *)

Definition DEFAULT_SLEEP_WAIT : Z := 1.

(** Lines 55-59: the URL polled. *)
Definition version_url (galaxy_url : string) (api_key : option string)
  : string :=
  let version_url := galaxy_url ++ "/api/version" in
  if truthy api_key
  then version_url ++ "?" ++ str_of api_key
  else version_url.

(** Lines 60-61: without a condition of the caller's the function makes its
    own, which nobody else holds and which therefore stays as [__init__]
    leaves it. *)
Definition condition_of (sleep_condition : option SharedCondition)
  : SharedCondition :=
  match sleep_condition with
  | None => fun _ => SleepCondition_init
  | Some shared => shared
  end.

(** Lines 65-85: the [try] statement of the loop body.  The handler of the
    inner [try] prints [result], which line 73 rebinds: when the handler runs,
    [result] is the parsed value if [json()] returned (the exception then
    came from the write of line 75) and the response otherwise.  [x[:100]] is
    [slice_to 100 x]. *)
Definition attempt (w : World) (version_url : string) (verbose : bool)
  : M unit :=
  try_except
    (result <- requests_get w version_url ;;
     if status_code result =? 403 then
       when verbose
         (count <- gets count ;;
          stdout_write w "[%02d] Provided key not (yet) valid... %s\n"
                       [ArgInt count; ArgResponse (status_code result)])
     else
       try_except
         (result' <- json result ;;
          when verbose
            (version_major <- lift (getitem result' "version_major") ;;
             stdout_write w "Galaxy Version: %s\n" [ArgValue version_major]) ;;
          break_)
         is_ValueError
         (fun _ =>
            let result :=
              match json_result result with
              | inr result' => ArgValue result'
              | inl _ => ArgResponse (status_code result)
              end in
            when verbose
              (count <- gets count ;;
               stdout_write w "[%02d] No valid json returned... %s\n"
                            [ArgInt count; result])))
    is_ConnectionError
    (fun e =>
       when verbose
         (count <- gets count ;;
          stdout_write w "[%02d] Galaxy not up yet... %s\n"
                       [ArgInt count; ArgStr (slice_to 100 (unicodify e))])).

(** Lines 65-93: the loop body. *)
Definition loop_body (w : World) (version_url : string) (verbose : bool)
    (timeout : Z) : M unit :=
  attempt w version_url verbose ;;
  modify (fun st => set_count (count st + 1) st) ;;
  count <- gets count ;;
  if negb (timeout =? 0) && (count >? timeout) then
    stderr_write "Failed to contact Galaxy\n" ;;
    return_ false
  else
    time_sleep DEFAULT_SLEEP_WAIT.

(** Lines 63-95, from [count = 0] on. *)
Definition galaxy_wait_body (w : World) (fuel : nat) (galaxy_url : string)
    (verbose : bool) (timeout : Z) (sleep_condition : option SharedCondition)
    (api_key : option string) : M bool :=
  let version_url := version_url galaxy_url api_key in
  let sleep_condition := condition_of sleep_condition in
  modify (set_count 0) ;;
  while_ fuel (read_sleep sleep_condition)
         (loop_body w version_url verbose timeout) ;;
  return_ true.

(** How a call ends: with a value, with an exception, or not within the
    fuel. *)
Inductive outcome : Type :=
| Returned (b : bool)
| Raised (e : exception)
| Polling.

(** A function call turns the completion of the body into the outcome of the
    call.  A [break] cannot leave a function body ([while_] consumes it). *)
Definition call (m : M bool) (st : State) : outcome * State :=
  match m st with
  | (Normal b, st') => (Returned b, st')
  | (Abrupt (Return b), st') => (Returned b, st')
  | (Abrupt (Raise e), st') => (Raised e, st')
  | (Abrupt Unfinished, st') => (Polling, st')
  | (Abrupt Break, st') => (Raised SyntaxError, st')
  end.

Definition galaxy_wait (w : World) (fuel : nat) (galaxy_url : string)
    (verbose : bool) (timeout : Z) (sleep_condition : option SharedCondition)
    (api_key : option string) : outcome * State :=
  call (galaxy_wait_body w fuel galaxy_url verbose timeout sleep_condition
                         api_key) init_state.

(** ** [main] *)

(** The object [_parse_cli_options()] returns; [galaxy] and [verbose] come
    from the common parser, [timeout] (an [int], 0 by default) and [api_key]
    (absent by default) from [_parser]. *)
Module Options.
Record t : Type := mk {
  galaxy : string;
  verbose : bool;
  timeout : Z;
  api_key : option string
}.
End Options.

(** How the process ends: [sys.exit(code)], an exception nothing catches, or
    not within the fuel. *)
Inductive termination : Type :=
| Exit (code : Z)
| Uncaught (e : exception)
| Running.

(** Lines 102-111, for the parsed [options]. *)
Definition main (w : World) (fuel : nat) (options : Options.t)
  : termination * State :=
  let (galaxy_alive, st) :=
    galaxy_wait w fuel (Options.galaxy options) (Options.verbose options)
                (Options.timeout options) None (Options.api_key options) in
  match galaxy_alive with
  | Returned galaxy_alive =>
      let exit_code := if galaxy_alive then 0 else 1 in
      (Exit exit_code, st)
  | Raised e => (Uncaught e, st)
  | Polling => (Running, st)
  end.

(** The exit status of the process: the argument of [sys.exit]; 1 when the
    interpreter ends on an uncaught exception. *)
Definition exit_status (t : termination) : option Z :=
  match t with
  | Exit code => Some code
  | Uncaught _ => Some 1
  | Running => None
  end.

(** * The vocabulary of the properties *)

(** ** Answers *)

(** A failed attempt: a connection failure, a 403, or a body that is not
    JSON ([json()] raises a [ValueError]; were it to raise a
    [ConnectionError], the outer handler would take it just the same). *)
Definition failed_attempt (r : exception + Response) : bool :=
  match r with
  | inl e => is_ConnectionError e
  | inr result =>
      (status_code result =? 403)
      || match json_result result with
         | inl e => is_ValueError e || is_ConnectionError e
         | inr _ => false
         end
  end.

(** A successful response: not a 403, with a body that parses; the parsed
    value. *)
Definition successful (r : exception + Response) : option pyvalue :=
  match r with
  | inl _ => None
  | inr result =>
      if status_code result =? 403 then None
      else match json_result result with
           | inl _ => None
           | inr v => Some v
           end
  end.

(** A connection failure or a 403, whatever the body of the 403. *)
Definition connection_failure_or_403 (r : exception + Response) : bool :=
  match r with
  | inl e => is_ConnectionError e
  | inr result => status_code result =? 403
  end.

(** An answer that cannot make the call raise, writes apart: a
    [ConnectionError], a 403, a body on which [json()] raises [ValueError],
    or a body that is JSON and, under [verbose], an object with
    ['version_major']. *)
Definition absorbed (verbose : bool) (r : exception + Response) : bool :=
  match r with
  | inl e => is_ConnectionError e
  | inr result =>
      (status_code result =? 403)
      || match json_result result with
         | inl e => is_ValueError e || is_ConnectionError e
         | inr v =>
             negb verbose
             || match getitem v "version_major" with
                | inr _ => true
                | inl _ => false
                end
         end
  end.

(** Two answers that differ at most in the value the body parses to. *)
Definition same_but_json (r1 r2 : exception + Response) : Prop :=
  match r1, r2 with
  | inl e1, inl e2 => e1 = e2
  | inr a, inr b =>
      status_code a = status_code b
      /\ match json_result a, json_result b with
         | inl e1, inl e2 => e1 = e2
         | inr _, inr _ => True
         | _, _ => False
         end
  | _, _ => False
  end.

(** All an iteration uses of the answer to its request, when its writes
    succeed: retry, success, or an exception that escapes. *)
Inductive verdict : Type :=
| Retry
| Succeed
| Escape (e : exception).

Definition judge (verbose : bool) (r : exception + Response) : verdict :=
  match r with
  | inl e => if is_ConnectionError e then Retry else Escape e
  | inr result =>
      if status_code result =? 403 then Retry
      else match json_result result with
           | inl e =>
               if is_ValueError e || is_ConnectionError e then Retry
               else Escape e
           | inr v =>
               if verbose then
                 match getitem v "version_major" with
                 | inl e => Escape e
                 | inr _ => Succeed
                 end
               else Succeed
           end
  end.

(** How the [try] statement completes on a verdict. *)
Definition completion (v : verdict) : signal unit :=
  match v with
  | Retry => Normal tt
  | Succeed => Abrupt Break
  | Escape e => Abrupt (Raise e)
  end.

(** ** The console *)

(** The console takes every write. *)
Definition console_ok (w : World) : Prop :=
  forall n o, stdout_fault w n o = None.

(** No write to standard output fails: none is made, or the console takes
    them all. *)
Definition can_write (verbose : bool) (w : World) : Prop :=
  verbose = false \/ console_ok w.

(** ** What [verbose] tells *)

(** The lines (one or none) that the attempt answered by [r] writes to
    standard output under [verbose] when its writes succeed, [count] being
    the value of the variable at that moment. *)
Definition narration (count : Z) (r : exception + Response) : list output :=
  match r with
  | inl e =>
      if is_ConnectionError e
      then [("[%02d] Galaxy not up yet... %s\n",
             [ArgInt count; ArgStr (slice_to 100 (unicodify e))])]
      else []
  | inr result =>
      if status_code result =? 403
      then [("[%02d] Provided key not (yet) valid... %s\n",
             [ArgInt count; ArgResponse (status_code result)])]
      else
        match json_result result with
        | inl e =>
            if is_ValueError e
            then [("[%02d] No valid json returned... %s\n",
                   [ArgInt count; ArgResponse (status_code result)])]
            else if is_ConnectionError e
            then [("[%02d] Galaxy not up yet... %s\n",
                   [ArgInt count; ArgStr (slice_to 100 (unicodify e))])]
            else []
        | inr v =>
            match getitem v "version_major" with
            | inr version_major =>
                [("Galaxy Version: %s\n", [ArgValue version_major])]
            | inl _ => []
            end
        end
  end.

(** The narration of the first [n] requests, numbered from 0. *)
Definition narrated (w : World) (url : string) (n : nat) : list output :=
  flat_map (fun i => narration (Z.of_nat i) (w i url)) (seq 0 n).

(** ** States *)

(** The state with another standard output. *)
Definition with_stdout (out : list output) (st : State) : State :=
  mkState (count st) (checks st) (requests_log st) (sleeps st) out (stderr st).

(** The state without standard output. *)
Definition obs (st : State)
  : Z * nat * list string * list Z * list output :=
  (count st, checks st, requests_log st, sleeps st, stderr st).

(** The single line the function writes to standard error. *)
Definition failure_notice : output := ("Failed to contact Galaxy\n", []).

(** The state after a failed attempt that is retried. *)
Definition retried (url : string) (st : State) : State :=
  add_sleep DEFAULT_SLEEP_WAIT (set_count (count st + 1) (add_request url st)).

(** The state after a failed attempt that exhausts the timeout. *)
Definition timed_out (url : string) (st : State) : State :=
  add_stderr failure_notice (set_count (count st + 1) (add_request url st)).

(** The seconds slept in all. *)
Definition total_sleep (st : State) : Z := fold_right Z.add 0 (sleeps st).

(** ** The loop and the call *)

(** The loop of [galaxy_wait]. *)
Definition loop (w : World) (url : string) (verbose : bool) (timeout : Z)
    (sc : SharedCondition) (fuel : nat) : M unit :=
  while_ fuel (read_sleep sc) (loop_body w url verbose timeout).

(** What the call makes of the way the loop ends: after the loop comes
    [return True]. *)
Definition finish (r : signal unit * State) : outcome * State :=
  match r with
  | (Normal _, st) => (Returned true, st)
  | (Abrupt Break, st) => (Raised SyntaxError, st)
  | (Abrupt (Return b), st) => (Returned b, st)
  | (Abrupt (Raise e), st) => (Raised e, st)
  | (Abrupt Unfinished, st) => (Polling, st)
  end.

(** The call from a state in which the loop condition is about to be
    evaluated: the [while] statement and the [return True] after it. *)
Definition rest_of_call (w : World) (url : string) (verbose : bool)
    (timeout : Z) (sc : SharedCondition) (fuel : nat) (st : State)
  : outcome * State :=
  call (loop w url verbose timeout sc fuel ;; return_ true) st.

Section Vocabulary.
Variables (w : World) (url : string) (verbose : bool) (timeout : Z)
          (sc : SharedCondition).

(** [body_step st sig st']: from [st] the loop body completes with [sig] in
    [st'].  The [try] statement completes normally and the attempt is
    counted, within the timeout or not; or it leaves the loop by [break]; or
    an exception leaves it. *)
Inductive body_step (st : State) : signal unit -> State -> Prop :=
| step_retry (out : list output) :
    attempt w url verbose st
    = (Normal tt, with_stdout out (add_request url st)) ->
    timeout = 0 \/ count st + 1 <= timeout ->
    (verbose = false -> out = stdout st) ->
    body_step st (Normal tt) (with_stdout out (retried url st))
| step_timeout (out : list output) :
    attempt w url verbose st
    = (Normal tt, with_stdout out (add_request url st)) ->
    timeout <> 0 ->
    timeout < count st + 1 ->
    (verbose = false -> out = stdout st) ->
    body_step st (Abrupt (Return false)) (with_stdout out (timed_out url st))
| step_success (v : pyvalue) (out : list output) :
    attempt w url verbose st
    = (Abrupt Break, with_stdout out (add_request url st)) ->
    successful (w (length (requests_log st)) url) = Some v ->
    verbose = false \/ (exists vm, getitem v "version_major" = inr vm) ->
    (verbose = false -> out = stdout st) ->
    body_step st (Abrupt Break) (with_stdout out (add_request url st))
| step_raises (e : exception) (out : list output) :
    attempt w url verbose st
    = (Abrupt (Raise e), with_stdout out (add_request url st)) ->
    (verbose = false -> out = stdout st) ->
    body_step st (Abrupt (Raise e)) (with_stdout out (add_request url st)).

(** [advanced k st st']: [st'] is [st] after [k] retried attempts. *)
Definition advanced (k : nat) (st st' : State) : Prop :=
  count st' = count st + Z.of_nat k
  /\ checks st' = (checks st + k)%nat
  /\ requests_log st' = (requests_log st ++ repeat url k)%list
  /\ sleeps st' = (sleeps st ++ repeat DEFAULT_SLEEP_WAIT k)%list
  /\ stderr st' = stderr st
  /\ (verbose = false -> stdout st' = stdout st).

(** The loop was left because the condition was found false. *)
Definition cancelled (st : State) : Prop :=
  exists n, checks st = S n /\ sleep (sc n) = false.

(** The last request was answered by [r]. *)
Definition last_answer (st : State) (r : exception + Response) : Prop :=
  exists l, requests_log st = (l ++ [url])%list /\ w (length l) url = r.

(** Every request goes to [url], and without [verbose] standard output is
    [out0] still. *)
Definition quiet (out0 : list output) (st : State) : Prop :=
  Forall (eq url) (requests_log st)
  /\ (verbose = false -> stdout st = out0).

(** The signal and the observable state an iteration ends with when its
    writes succeed, given the answer to its request. *)
Definition judged (r : exception + Response) (st : State)
    (sig : signal unit) (st' : State) : Prop :=
  match judge verbose r with
  | Retry =>
      if negb (timeout =? 0) && (count st + 1 >? timeout)
      then sig = Abrupt (Return false) /\ obs st' = obs (timed_out url st)
      else sig = Normal tt /\ obs st' = obs (retried url st)
  | Succeed => sig = Abrupt Break /\ obs st' = obs (add_request url st)
  | Escape e => sig = Abrupt (Raise e) /\ obs st' = obs (add_request url st)
  end.

(** The first [n] requests were all answered by failed attempts. *)
Definition all_failed (n : nat) : Prop :=
  forall i, (i < n)%nat -> failed_attempt (w i url) = true.

(** [n] attempts stay within the timeout. *)
Definition within_timeout (n : nat) : Prop :=
  timeout = 0 \/ Z.of_nat n <= Z.max 0 timeout.

(** The state in which the loop condition is evaluated for the [n]-th time
    (from 0): [n] attempts were counted, each followed by a sleep; they were
    failed attempts if no write failed. *)
Definition at_check (n : nat) (st : State) : Prop :=
  count st = Z.of_nat n
  /\ checks st = n
  /\ length (requests_log st) = n
  /\ sleeps st = repeat DEFAULT_SLEEP_WAIT n
  /\ stderr st = []
  /\ (can_write verbose w -> all_failed n)
  /\ within_timeout n.

(** The books at each way the loop can end. *)
Definition accounted (sig : signal unit) (st : State) : Prop :=
  match sig with
  | Abrupt Unfinished => at_check (checks st) st
  | Abrupt Break => False
  | Normal _ =>
      exists n,
        count st = Z.of_nat n /\ checks st = S n
        /\ sleeps st = repeat DEFAULT_SLEEP_WAIT n /\ stderr st = []
        /\ (can_write verbose w -> all_failed n) /\ within_timeout n
        /\ ((length (requests_log st) = n /\ sleep (sc n) = false)
            \/ (length (requests_log st) = S n
                /\ sleep (sc n) = true
                /\ exists v, successful (w n url) = Some v
                   /\ (verbose = false
                       \/ exists vm, getitem v "version_major" = inr vm)))
  | Abrupt (Return b) =>
      b = false /\ timeout <> 0
      /\ exists n,
          Z.of_nat n = Z.max 0 timeout
          /\ count st = Z.of_nat (S n) /\ checks st = S n
          /\ length (requests_log st) = S n
          /\ sleeps st = repeat DEFAULT_SLEEP_WAIT n
          /\ stderr st = [failure_notice]
          /\ (can_write verbose w -> all_failed (S n))
  | Abrupt (Raise e) =>
      exists n,
        count st = Z.of_nat n /\ checks st = S n
        /\ length (requests_log st) = S n
        /\ sleeps st = repeat DEFAULT_SLEEP_WAIT n /\ stderr st = []
        /\ (can_write verbose w -> all_failed n) /\ within_timeout n
        /\ (can_write verbose w -> judge verbose (w n url) = Escape e)
  end.

End Vocabulary.

(** ** Targets and callers *)

(** Scenario B of the specification: a target that always answers 403. *)
Definition always_403 : World :=
  on_reliable_console
    (fun _ _ => inr {| status_code := 403; json_result := inl ValueError |}).

(** A target that answers 403 with Galaxy's JSON error body. *)
Definition always_403_json : World :=
  on_reliable_console
    (fun _ _ =>
       inr {| status_code := 403;
              json_result :=
                inr (PyDict [("err_msg", PyStr "Provided API key is not valid.");
                             ("err_code", PyInt 403001)]) |}).

(** A target that refuses every connection. *)
Definition always_refused : World :=
  on_reliable_console
    (fun _ _ => inl (ConnectionError (text_of_string "Connection refused"))).

(** A target that answers at once as a Galaxy does. *)
Definition galaxy_up : World :=
  on_reliable_console
    (fun _ _ =>
       inr {| status_code := 200;
              json_result := inr (PyDict [("version_major", PyStr "23.0")]) |}).

(** [n] refused connections, then a Galaxy (scenario A for [n = 3]). *)
Definition refused_then_up (n : nat) : World :=
  on_reliable_console
    (fun i u => if (i <? n)%nat then always_refused i u else galaxy_up i u).

(** Scenario C: a body that is not JSON, then a Galaxy. *)
Definition not_json_then_up : World :=
  on_reliable_console
    (fun n _ =>
       match n with
       | O => inr {| status_code := 200; json_result := inl ValueError |}
       | _ => inr {| status_code := 200;
                     json_result :=
                       inr (PyDict [("version_major", PyStr "1")]) |}
       end).

(** A target whose bodies are never JSON. *)
Definition never_json : World :=
  on_reliable_console
    (fun _ _ => inr {| status_code := 200; json_result := inl ValueError |}).

(** A target whose body is JSON, but not an object: the list [[]]. *)
Definition json_list : World :=
  on_reliable_console
    (fun _ _ => inr {| status_code := 200; json_result := inr (PyList []) |}).

(** A target whose body is a JSON object without ['version_major']. *)
Definition json_without_version : World :=
  on_reliable_console
    (fun _ _ =>
       inr {| status_code := 200;
              json_result := inr (PyDict [("status", PyStr "ok")]) |}).

(** A target on which [requests.get] fails with an exception of
    [requests.exceptions] that is not a [ConnectionError]: the connection
    breaks while the body is being read. *)
Definition connection_broken : World :=
  on_reliable_console
    (fun _ _ =>
       inl (RequestException "ChunkedEncodingError"
                             "Connection broken: IncompleteRead")).




(** The owner of a shared condition who calls [cancel] once the loop has
    evaluated the condition [n] times. *)
Definition cancel_after (n : nat) : SharedCondition :=
  fun i => if (i <? n)%nat then SleepCondition_init
           else cancel SleepCondition_init.

(** * Properties *)

Ltac unfold_py :=
  unfold loop_body, attempt, try_except, requests_get, json, stdout_write,
    stderr_write, time_sleep, when, pass, lift, raise, return_, break_, abort,
    bind, gets, modify, ret.

(** Case analysis on whatever the goal still matches on. *)
Ltac split_cases :=
  repeat match goal with
         | |- context [match ?x with _ => _ end] =>
             lazymatch x with
             | context [match _ with _ => _ end] => fail
             | _ => destruct x eqn:?; simpl
             end
         end.

(** The lookup raises [KeyError] or [TypeError], which no handler takes. *)
Lemma getitem_error (obj : pyvalue) (key : string) (e : exception) :
  getitem obj key = inl e ->
  is_ValueError e = false /\ is_ConnectionError e = false.
Proof.
  unfold getitem. destruct obj; try (intros [= <-]; split; reflexivity).
  destruct (dict_get items key); [ discriminate | ].
  intros [= <-]; split; reflexivity.
Qed.

(** ** One iteration *)
Section Body.
Variables (w : World) (url : string) (verbose : bool) (timeout : Z).

#[local] Arguments is_ConnectionError : simpl never.
#[local] Arguments is_ValueError : simpl never.
#[local] Arguments getitem : simpl never.
#[local] Arguments slice_to : simpl never.

(** Whatever the network and the console do, the [try] statement makes one
    request, touches nothing but standard output (and not even that without
    [verbose]), and completes normally, by [break] or by an exception; by
    [break] only on a successful response. *)
Lemma attempt_shape (st : State) :
  exists sig out,
    attempt w url verbose st = (sig, with_stdout out (add_request url st))
    /\ (verbose = false -> out = stdout st)
    /\ match sig with
       | Normal _ => True
       | Abrupt Break =>
           exists v, successful (w (length (requests_log st)) url) = Some v
                     /\ (verbose = false
                         \/ exists vm, getitem v "version_major" = inr vm)
       | Abrupt (Raise _) => True
       | Abrupt _ => False
       end.
Proof.
  unfold successful. unfold_py. simpl.
  split_cases.
  all: do 2 eexists; split; [ reflexivity | ];
    split; [ intros Hv; first [ reflexivity | discriminate Hv ] | ].
  all: try exact I.
  all: eexists; split; [ reflexivity | ].
  all: first [ left; reflexivity | right; eexists; eassumption ].
Qed.

(** When no write fails, the [try] statement completes as the verdict on the
    answer says, and under [verbose] writes the narration of the answer. *)
Lemma attempt_judged (st : State) :
  can_write verbose w ->
  fst (attempt w url verbose st)
  = completion (judge verbose (w (length (requests_log st)) url))
  /\ stdout (snd (attempt w url verbose st))
     = (stdout st
        ++ if verbose
           then narration (count st) (w (length (requests_log st)) url)
           else [])%list.
Proof.
  intros Hcan. unfold judge, narration, completion. unfold_py. simpl.
  split_cases.
  all: try match goal with
           | H : getitem _ _ = inl _ |- _ =>
               destruct (getitem_error _ _ _ H); congruence
           end.
  all: try match goal with
           | H : stdout_fault _ _ _ = Some _ |- _ =>
               destruct Hcan as [Hq | Hok];
               [ discriminate Hq | rewrite Hok in H; discriminate H ]
           end.
  all: split; [ reflexivity | rewrite ?app_nil_r; reflexivity ].
Qed.

Lemma judge_retry (r : exception + Response) :
  judge verbose r = Retry <-> failed_attempt r = true.
Proof.
  unfold judge, failed_attempt.
  destruct r as [e | result].
  - destruct (is_ConnectionError e); split; congruence.
  - destruct (status_code result =? 403); simpl; [ split; reflexivity | ].
    destruct (json_result result) as [e | v].
    + destruct (is_ValueError e || is_ConnectionError e); split; congruence.
    + destruct verbose; [ destruct (getitem v "version_major") | ];
        split; congruence.
Qed.

Lemma judge_failed (r : exception + Response) :
  failed_attempt r = true -> judge verbose r = Retry.
Proof. apply judge_retry. Qed.

Lemma judge_successful (r : exception + Response) (v : pyvalue) :
  successful r = Some v ->
  judge verbose r
  = if verbose then
      match getitem v "version_major" with
      | inl e => Escape e
      | inr _ => Succeed
      end
    else Succeed.
Proof.
  unfold successful, judge. destruct r as [e | result]; [ discriminate | ].
  destruct (status_code result =? 403); [ discriminate | ].
  destruct (json_result result); [ discriminate | ].
  intros [= ->]; reflexivity.
Qed.

(** What makes an exception escape when no write fails: [requests.get]
    raised it and it is no [ConnectionError]; or [json()] raised it and it is
    neither a [ValueError] nor a [ConnectionError]; or, under [verbose], the
    lookup of ['version_major'] raised it. *)
Lemma judge_escape (r : exception + Response) (e : exception) :
  judge verbose r = Escape e ->
  (r = inl e /\ is_ConnectionError e = false)
  \/ (exists result,
        r = inr result /\ (status_code result =? 403) = false
        /\ json_result result = inl e
        /\ is_ValueError e = false /\ is_ConnectionError e = false)
  \/ (verbose = true
      /\ exists v, successful r = Some v
                   /\ getitem v "version_major" = inl e).
Proof.
  unfold judge, successful. destruct r as [e0 | result].
  - destruct (is_ConnectionError e0) eqn:Hc; [ discriminate | ].
    intros [= ->]. left; split; [ reflexivity | exact Hc ].
  - destruct (status_code result =? 403) eqn:H403; [ discriminate | ].
    destruct (json_result result) as [e0 | v] eqn:Hj.
    + destruct (is_ValueError e0) eqn:Hv; [ discriminate | ].
      destruct (is_ConnectionError e0) eqn:Hc; [ discriminate | ].
      simpl. intros [= ->]. right; left. exists result.
      repeat split; assumption || reflexivity.
    + destruct verbose; [ | discriminate ].
      destruct (getitem v "version_major") as [e0 | vm] eqn:Hget;
        [ | discriminate ].
      intros [= ->]. right; right. split; [ reflexivity | ].
      exists v; split; [ reflexivity | exact Hget ].
Qed.

Lemma successful_not_failed (r : exception + Response) (v : pyvalue) :
  successful r = Some v -> failed_attempt r = false.
Proof.
  unfold successful, failed_attempt. destruct r as [e | result];
    [ discriminate | ].
  destruct (status_code result =? 403); [ discriminate | ].
  destruct (json_result result); [ discriminate | reflexivity ].
Qed.

Lemma connection_failure_or_403_failed (r : exception + Response) :
  connection_failure_or_403 r = true -> failed_attempt r = true.
Proof.
  destruct r as [e | result]; simpl; [ auto | ].
  intros ->; reflexivity.
Qed.

(** The forward lemmas: what the [try] statement does on each kind of answer
    when no write fails. *)
Lemma attempt_with (st : State) (sig : signal unit) :
  can_write verbose w ->
  completion (judge verbose (w (length (requests_log st)) url)) = sig ->
  exists out,
    attempt w url verbose st = (sig, with_stdout out (add_request url st))
    /\ (verbose = false -> out = stdout st).
Proof.
  intros Hcan Hsig.
  destruct (attempt_shape st) as (sig' & out & Heq & Hout & _).
  destruct (attempt_judged st Hcan) as [Hfst _].
  rewrite Heq in Hfst. simpl in Hfst. rewrite Hsig in Hfst. subst sig'.
  exists out; split; assumption.
Qed.

Lemma attempt_failed (st : State) :
  can_write verbose w ->
  failed_attempt (w (length (requests_log st)) url) = true ->
  exists out,
    attempt w url verbose st = (Normal tt, with_stdout out (add_request url st))
    /\ (verbose = false -> out = stdout st).
Proof.
  intros Hcan Hf. apply (attempt_with st _ Hcan).
  rewrite (judge_failed _ Hf). reflexivity.
Qed.

Lemma attempt_successful (st : State) (v : pyvalue) :
  can_write verbose w ->
  successful (w (length (requests_log st)) url) = Some v ->
  verbose = false \/ (exists vm, getitem v "version_major" = inr vm) ->
  exists out,
    attempt w url verbose st = (Abrupt Break, with_stdout out (add_request url st))
    /\ (verbose = false -> out = stdout st).
Proof.
  intros Hcan Hv Hok. apply (attempt_with st _ Hcan).
  rewrite (judge_successful _ _ Hv).
  destruct Hok as [-> | [vm ->]]; [ reflexivity | ].
  destruct verbose; reflexivity.
Qed.

(** An exception of [requests.get] that is no [ConnectionError] leaves the
    [try] statement, whatever the console does: nothing is written before. *)
Lemma attempt_raises (st : State) (e : exception) :
  w (length (requests_log st)) url = inl e ->
  is_ConnectionError e = false ->
  attempt w url verbose st = (Abrupt (Raise e), add_request url st).
Proof.
  unfold_py. intros -> He; simpl. rewrite He. reflexivity.
Qed.

(** So does an exception of [json()] that is neither a [ValueError] nor a
    [ConnectionError]. *)
Lemma attempt_json_raises (st : State) (result : Response) (e : exception) :
  w (length (requests_log st)) url = inr result ->
  (status_code result =? 403) = false ->
  json_result result = inl e ->
  is_ValueError e = false ->
  is_ConnectionError e = false ->
  attempt w url verbose st = (Abrupt (Raise e), add_request url st).
Proof.
  unfold_py. intros -> H403 Hj Hv Hc; simpl.
  rewrite H403, Hj; simpl. rewrite Hv, Hc. reflexivity.
Qed.

(** Under [verbose], so does the exception that the lookup of
    ['version_major'] raises, whatever the console does. *)
Lemma attempt_lookup_raises (st : State) (v : pyvalue) (e : exception) :
  successful (w (length (requests_log st)) url) = Some v ->
  verbose = true ->
  getitem v "version_major" = inl e ->
  attempt w url verbose st = (Abrupt (Raise e), add_request url st).
Proof.
  unfold successful. unfold_py.
  destruct (w (length (requests_log st)) url) as [e' | result];
    [ discriminate | ].
  destruct (status_code result =? 403); [ discriminate | ].
  destruct (json_result result) as [e' | v']; [ discriminate | ].
  intros [= ->] -> Hget; simpl. rewrite Hget; simpl.
  destruct (getitem_error _ _ _ Hget) as [-> ->]. reflexivity.
Qed.

(** After the [try] statement: the count and the timeout. *)
Lemma loop_body_counted (st st1 : State) :
  attempt w url verbose st = (Normal tt, st1) ->
  loop_body w url verbose timeout st
  = if negb (timeout =? 0) && (count st1 + 1 >? timeout)
    then (Abrupt (Return false),
          add_stderr failure_notice (set_count (count st1 + 1) st1))
    else (Normal tt,
          add_sleep DEFAULT_SLEEP_WAIT (set_count (count st1 + 1) st1)).
Proof.
  intros Ha. unfold loop_body, bind at 1. rewrite Ha. unfold_py; simpl.
  destruct (negb (timeout =? 0) && (count st1 + 1 >? timeout)); reflexivity.
Qed.

Lemma loop_body_abrupt (st st' : State) (c : abrupt) :
  attempt w url verbose st = (Abrupt c, st') ->
  loop_body w url verbose timeout st = (Abrupt c, st').
Proof.
  intros Ha. unfold loop_body, bind at 1. rewrite Ha. reflexivity.
Qed.

Lemma timeout_test (c : Z) :
  (negb (timeout =? 0) && (c >? timeout) = true
   <-> timeout <> 0 /\ timeout < c)
  /\ (negb (timeout =? 0) && (c >? timeout) = false
      <-> timeout = 0 \/ c <= timeout).
Proof.
  rewrite Z.gtb_ltb.
  destruct (Z.eqb_spec timeout 0), (Z.ltb_spec timeout c); simpl;
    repeat split; intros; try discriminate; try tauto; try lia.
Qed.

Lemma loop_body_failed_retry (st : State) :
  can_write verbose w ->
  failed_attempt (w (length (requests_log st)) url) = true ->
  timeout = 0 \/ count st + 1 <= timeout ->
  exists out,
    loop_body w url verbose timeout st
    = (Normal tt, with_stdout out (retried url st))
    /\ (verbose = false -> out = stdout st).
Proof.
  intros Hcan Hf Ht. destruct (attempt_failed st Hcan Hf) as (out & Ha & Hout).
  exists out; split; [ | exact Hout ].
  rewrite (loop_body_counted _ _ Ha). simpl.
  replace (negb (timeout =? 0) && (count st + 1 >? timeout)) with false;
    [ reflexivity | symmetry; apply timeout_test, Ht ].
Qed.

Lemma loop_body_failed_timeout (st : State) :
  can_write verbose w ->
  failed_attempt (w (length (requests_log st)) url) = true ->
  timeout <> 0 ->
  timeout < count st + 1 ->
  exists out,
    loop_body w url verbose timeout st
    = (Abrupt (Return false), with_stdout out (timed_out url st))
    /\ (verbose = false -> out = stdout st).
Proof.
  intros Hcan Hf Hz Ht.
  destruct (attempt_failed st Hcan Hf) as (out & Ha & Hout).
  exists out; split; [ | exact Hout ].
  rewrite (loop_body_counted _ _ Ha). simpl.
  replace (negb (timeout =? 0) && (count st + 1 >? timeout)) with true;
    [ reflexivity | symmetry; apply timeout_test; split; assumption ].
Qed.

(** The body is a function; [body_step] describes all it does. *)
Lemma loop_body_step (st : State) :
  exists sig st',
    loop_body w url verbose timeout st = (sig, st')
    /\ body_step w url verbose timeout st sig st'.
Proof.
  destruct (attempt_shape st) as (sig & out & Ha & Hout & Hsig).
  destruct sig as [[] | [ | b | e | ]]; try contradiction.
  - rewrite (loop_body_counted _ _ Ha). simpl.
    destruct (negb (timeout =? 0) && (count st + 1 >? timeout)) eqn:Ht.
    + apply timeout_test in Ht. destruct Ht as [Hz Ht].
      do 2 eexists; split; [ reflexivity | ].
      apply (step_timeout w url verbose timeout st out); assumption.
    + apply timeout_test in Ht.
      do 2 eexists; split; [ reflexivity | ].
      apply (step_retry w url verbose timeout st out); assumption.
  - destruct Hsig as (v & Hv & Hkey).
    do 2 eexists; split; [ apply loop_body_abrupt, Ha | ].
    apply (step_success w url verbose timeout st v out); assumption.
  - do 2 eexists; split; [ apply loop_body_abrupt, Ha | ].
    apply (step_raises w url verbose timeout st e out); assumption.
Qed.

(** When no write fails, a step is the step of the verdict. *)
Lemma body_step_verdict (st : State) (sig : signal unit) (st' : State) :
  can_write verbose w ->
  body_step w url verbose timeout st sig st' ->
  match judge verbose (w (length (requests_log st)) url) with
  | Retry => sig = Normal tt \/ sig = Abrupt (Return false)
  | Succeed => sig = Abrupt Break
  | Escape e => sig = Abrupt (Raise e)
  end.
Proof.
  intros Hcan Hstep.
  destruct (attempt_judged st Hcan) as [Hfst _].
  destruct Hstep as [out Ha | out Ha | v out Ha | e out Ha];
    rewrite Ha in Hfst; simpl in Hfst;
    destruct (judge verbose (w (length (requests_log st)) url));
    simpl in Hfst; try discriminate; auto.
Qed.
(** When no write fails, an attempt that is counted was a failed attempt, and
    an exception that escapes is the one the verdict names. *)
Lemma attempt_normal_failed (st st1 : State) :
  can_write verbose w ->
  attempt w url verbose st = (Normal tt, st1) ->
  failed_attempt (w (length (requests_log st)) url) = true.
Proof.
  intros Hcan Ha. destruct (attempt_judged st Hcan) as [Hfst _].
  rewrite Ha in Hfst. simpl in Hfst. apply judge_retry.
  destruct (judge verbose (w (length (requests_log st)) url));
    [ reflexivity | discriminate | discriminate ].
Qed.

Lemma attempt_raise_escape (st st1 : State) (e : exception) :
  can_write verbose w ->
  attempt w url verbose st = (Abrupt (Raise e), st1) ->
  judge verbose (w (length (requests_log st)) url) = Escape e.
Proof.
  intros Hcan Ha. destruct (attempt_judged st Hcan) as [Hfst _].
  rewrite Ha in Hfst. simpl in Hfst.
  destruct (judge verbose (w (length (requests_log st)) url));
    simpl in Hfst; try discriminate.
  injection Hfst as ->. reflexivity.
Qed.
End Body.

(** ** The loop *)
Section Loop.
Variables (w : World) (url : string) (verbose : bool) (timeout : Z)
          (sc : SharedCondition).

Let body := loop_body w url verbose timeout.
Let run := loop w url verbose timeout sc.

Lemma loop_cancelled (fuel : nat) (st : State) :
  sleep (sc (checks st)) = false ->
  run (S fuel) st = (Normal tt, add_check st).
Proof.
  intros H. unfold run, loop; simpl. unfold read_sleep, bind, gets, modify, ret.
  rewrite H. reflexivity.
Qed.

Lemma loop_step (fuel : nat) (st : State) :
  sleep (sc (checks st)) = true ->
  run (S fuel) st
  = match body (add_check st) with
    | (Normal _, st2) => run fuel st2
    | (Abrupt Break, st2) => (Normal tt, st2)
    | (Abrupt c, st2) => (Abrupt c, st2)
    end.
Proof.
  intros H. unfold run, loop; simpl. unfold read_sleep, bind, gets, modify, ret.
  rewrite H. reflexivity.
Qed.

(** [k] failed attempts within the timeout, no cancellation, no failing
    write: the loop goes round [k] times. *)
Lemma loop_failed_run (k : nat) :
  forall (fuel : nat) (st : State),
    can_write verbose w ->
    (forall i, (i < k)%nat ->
               failed_attempt (w (length (requests_log st) + i)%nat url) = true) ->
    (forall i, (i < k)%nat -> sleep (sc (checks st + i)%nat) = true) ->
    timeout = 0 \/ count st + Z.of_nat k <= timeout ->
    exists st',
      run (k + fuel) st = run fuel st' /\ advanced url verbose k st st'.
Proof.
  induction k as [| k IH]; intros fuel st Hcan Hfail Hflag Htime.
  - exists st; split; [ reflexivity | ].
    unfold advanced; simpl. rewrite Z.add_0_r, Nat.add_0_r, !app_nil_r.
    repeat split; reflexivity.
  - assert (Hflag0 : sleep (sc (checks st)) = true).
    { rewrite <- (Nat.add_0_r (checks st)). apply Hflag; lia. }
    assert (Hfail0 : failed_attempt
                       (w (length (requests_log (add_check st))) url) = true).
    { simpl. rewrite <- (Nat.add_0_r (length _)). apply Hfail; lia. }
    destruct (loop_body_failed_retry w url verbose timeout (add_check st)
                                     Hcan Hfail0)
      as (out & Hbody & Hout); [ destruct Htime; [ auto | right; simpl; lia ] | ].
    simpl Nat.add. rewrite (loop_step _ _ Hflag0). fold body in Hbody |- *.
    rewrite Hbody.
    destruct (IH fuel (with_stdout out (retried url (add_check st))) Hcan)
      as (st' & Hrun & Hadv).
    + intros i Hi; simpl. rewrite length_app; simpl.
      replace (length (requests_log st) + 1 + i)%nat
        with (length (requests_log st) + S i)%nat by lia.
      apply Hfail; lia.
    + intros i Hi; simpl.
      replace (S (checks st + i)) with (checks st + S i)%nat by lia.
      apply Hflag; lia.
    + destruct Htime; [ auto | right; simpl; lia ].
    + exists st'; split; [ exact Hrun | ].
      destruct Hadv as (Hc & Hk & Hr & Hs & He & Ho). simpl in *.
      unfold advanced; repeat split.
      * lia.
      * lia.
      * rewrite Hr, <- app_assoc. reflexivity.
      * rewrite Hs, <- app_assoc. reflexivity.
      * exact He.
      * intros Hv. rewrite (Ho Hv). apply Hout, Hv.
Qed.

(** Fuel only bounds the model: once the loop has ended, more fuel changes
    nothing. *)
Lemma loop_more_fuel (extra fuel : nat) :
  forall st,
    fst (run fuel st) <> Abrupt Unfinished ->
    run (fuel + extra) st = run fuel st.
Proof.
  induction fuel as [| n IH]; intros st Hend.
  - contradiction Hend; reflexivity.
  - destruct (sleep (sc (checks st))) eqn:Hflag.
    + simpl Nat.add. rewrite !(loop_step _ _ Hflag).
      rewrite (loop_step _ _ Hflag) in Hend.
      destruct (body (add_check st)) as [[[] | c] st2];
        [ apply IH, Hend | reflexivity ].
    + simpl Nat.add. rewrite !(loop_cancelled _ _ Hflag). reflexivity.
Qed.

(** A rule for the loop in the style of Hoare logic: an invariant [I] of the
    states in which the condition is evaluated, and a postcondition [Post]
    of every way the loop can end (or not end within the fuel). *)
Lemma loop_rule (I : State -> Prop) (Post : signal unit -> State -> Prop) :
  (forall st, I st -> Post (Abrupt Unfinished) st) ->
  (forall st, I st -> sleep (sc (checks st)) = false ->
              Post (Normal tt) (add_check st)) ->
  (forall st sig st',
      I st -> sleep (sc (checks st)) = true ->
      body_step w url verbose timeout (add_check st) sig st' ->
      match sig with
      | Normal _ => I st'
      | Abrupt Break => Post (Normal tt) st'
      | Abrupt c => Post (Abrupt c) st'
      end) ->
  forall fuel st, I st -> Post (fst (run fuel st)) (snd (run fuel st)).
Proof.
  intros Hfuel Hcancel Hbody.
  induction fuel as [| fuel IH]; intros st HI.
  - apply Hfuel, HI.
  - destruct (sleep (sc (checks st))) eqn:Hflag.
    + rewrite (loop_step _ _ Hflag).
      destruct (loop_body_step w url verbose timeout (add_check st))
        as (sig & st' & Heq & Hstep).
      fold body in Heq. rewrite Heq.
      specialize (Hbody st sig st' HI Hflag Hstep).
      destruct sig as [[] | c]; [ apply IH, Hbody | ].
      destruct c; exact Hbody.
    + rewrite (loop_cancelled _ _ Hflag). apply Hcancel; assumption.
Qed.

Lemma loop_quiet (out0 : list output) (fuel : nat) (st : State) :
  quiet url verbose out0 st ->
  quiet url verbose out0 (snd (run fuel st)).
Proof.
  apply (loop_rule (quiet url verbose out0)
                   (fun _ st' => quiet url verbose out0 st')).
  - auto.
  - intros st0 H _. exact H.
  - intros st0 sig st' [Hreq Hout] _ Hstep.
    assert (Hq : quiet url verbose out0 st').
    { destruct Hstep as [out _ _ Ho | out _ _ _ Ho | v out _ _ _ Ho
                         | e out _ Ho];
        (split; simpl;
         [ apply Forall_app; split; [ assumption | repeat constructor ]
         | intros Hv; rewrite (Ho Hv); apply Hout, Hv ]). }
    destruct sig as [[] | []]; exact Hq.
Qed.

(** While the loop has not ended, each unit of fuel is one evaluation of the
    condition. *)
Lemma loop_unfinished_checks (fuel : nat) :
  forall st,
    fst (run fuel st) = Abrupt Unfinished ->
    checks (snd (run fuel st)) = (checks st + fuel)%nat.
Proof.
  induction fuel as [| fuel IH]; intros st Hun.
  - simpl. lia.
  - destruct (sleep (sc (checks st))) eqn:Hflag.
    + rewrite (loop_step _ _ Hflag) in Hun |- *.
      destruct (loop_body_step w url verbose timeout (add_check st))
        as (sig & st' & Heq & Hstep).
      fold body in Heq. rewrite Heq in Hun |- *.
      destruct Hstep; simpl in Hun |- *; try discriminate Hun.
      rewrite (IH _ Hun). simpl. lia.
    + rewrite (loop_cancelled _ _ Hflag) in Hun.
      discriminate Hun.
Qed.

(** If the condition is false at its [n]-th evaluation, the loop does not get
    past it. *)
Lemma loop_checks_bound (n fuel : nat) (st : State) :
  sleep (sc n) = false ->
  (checks st <= n)%nat ->
  match fst (run fuel st) with
  | Normal _ => (checks (snd (run fuel st)) <= S n)%nat
  | _ => (checks (snd (run fuel st)) <= n)%nat
  end.
Proof.
  intros Hn.
  apply (loop_rule (fun st0 => (checks st0 <= n)%nat)
                   (fun sig st' =>
                      match sig with
                      | Normal _ => (checks st' <= S n)%nat
                      | _ => (checks st' <= n)%nat
                      end)).
  - intros st0 H. exact H.
  - intros st0 H _. simpl. lia.
  - intros st0 sig st' H Hflag Hstep.
    assert (Hlt : (checks st0 < n)%nat).
    { destruct (Nat.eq_dec (checks st0) n) as [Heq | Hne]; [ | lia ].
      rewrite Heq in Hflag. congruence. }
    destruct Hstep; simpl; lia.
Qed.

Lemma repeat_snoc {A} (x : A) (n : nat) :
  (repeat x n ++ [x])%list = repeat x (S n).
Proof. symmetry. apply (repeat_cons n x). Qed.

Lemma all_failed_S (n : nat) :
  all_failed w url n -> failed_attempt (w n url) = true ->
  all_failed w url (S n).
Proof.
  intros Hn Hlast i Hi. destruct (Nat.eq_dec i n) as [-> | Hne].
  - exact Hlast.
  - apply Hn. lia.
Qed.

(** One iteration from the [n]-th check. *)
Lemma body_step_accounted (n : nat) (st : State) (sig : signal unit)
    (st' : State) :
  at_check w url verbose timeout n st ->
  sleep (sc n) = true ->
  body_step w url verbose timeout (add_check st) sig st' ->
  match sig with
  | Normal _ => at_check w url verbose timeout (S n) st'
  | Abrupt Break => accounted w url verbose timeout sc (Normal tt) st'
  | Abrupt c => accounted w url verbose timeout sc (Abrupt c) st'
  end.
Proof.
  intros (Hc & Hk & Hr & Hs & He & Hf & Hb) Hflag Hstep.
  assert (Hlen : length (requests_log (add_check st)) = n) by exact Hr.
  destruct Hstep as [out Ha Ht Ho | out Ha Hz Ht Ho | v out Ha Hv Hok Ho
                     | e out Ha Ho].
  - assert (Hlast : can_write verbose w -> failed_attempt (w n url) = true).
    { intros Hcan. rewrite <- Hlen.
      apply (attempt_normal_failed w url verbose (add_check st) _ Hcan Ha). }
    clear Ha. unfold at_check; simpl in *. repeat apply conj.
    + lia.
    + lia.
    + rewrite length_app; simpl; lia.
    + rewrite Hs. apply repeat_snoc.
    + exact He.
    + intros Hcan. apply all_failed_S; [ apply Hf, Hcan | apply Hlast, Hcan ].
    + destruct Ht as [Ht | Ht]; [ left; exact Ht | right; lia ].
  - assert (Hlast : can_write verbose w -> failed_attempt (w n url) = true).
    { intros Hcan. rewrite <- Hlen.
      apply (attempt_normal_failed w url verbose (add_check st) _ Hcan Ha). }
    clear Ha. simpl in *.
    split; [ reflexivity | split; [ exact Hz | ] ].
    assert (Hn : Z.of_nat n = Z.max 0 timeout)
      by (destruct Hb as [Hb | Hb]; [ contradiction | lia ]).
    exists n. repeat apply conj.
    + exact Hn.
    + lia.
    + lia.
    + rewrite length_app; simpl; lia.
    + exact Hs.
    + rewrite He. reflexivity.
    + intros Hcan. apply all_failed_S; [ apply Hf, Hcan | apply Hlast, Hcan ].
  - clear Ha. rewrite Hlen in Hv. simpl in *.
    exists n. repeat apply conj; try assumption; try lia.
    right. repeat apply conj.
    + rewrite length_app; simpl; lia.
    + exact Hflag.
    + exists v; split; assumption.
  - assert (Hlast : can_write verbose w -> judge verbose (w n url) = Escape e).
    { intros Hcan. rewrite <- Hlen.
      apply (attempt_raise_escape w url verbose (add_check st) _ e Hcan Ha). }
    clear Ha. simpl in *.
    exists n. repeat apply conj; try assumption; try lia.
    rewrite length_app; simpl; lia.
Qed.

(** The books are kept from any check on. *)
Lemma loop_accounted (fuel : nat) (st : State) :
  at_check w url verbose timeout (checks st) st ->
  accounted w url verbose timeout sc (fst (run fuel st)) (snd (run fuel st)).
Proof.
  apply (loop_rule (fun st0 => at_check w url verbose timeout (checks st0) st0)
                   (accounted w url verbose timeout sc)).
  - intros st0 H. exact H.
  - intros st0 (Hc & Hk & Hr & Hs & He & Hf & Hb) Hflag.
    exists (checks st0). simpl. repeat split; try assumption.
    left; split; assumption.
  - intros st0 sig st' H0 Hflag Hstep.
    pose proof (body_step_accounted (checks st0) st0 sig st' H0 Hflag Hstep) as H.
    destruct sig as [[] | c]; [ | exact H ].
    assert (Hk : checks st' = S (checks st0)) by apply H.
    rewrite Hk. exact H.
Qed.
End Loop.

Lemma init_at_check (w : World) (url : string) (verbose : bool) (timeout : Z) :
  at_check w url verbose timeout (checks init_state) init_state.
Proof.
  unfold at_check, all_failed, within_timeout; simpl.
  repeat split; try reflexivity; lia.
Qed.

(** ** What an iteration depends on

    When its writes succeed, an iteration uses the answer to its request only
    through its verdict, and the state only through what is not standard
    output. *)

Lemma obs_fields (st1 st2 : State) :
  obs st1 = obs st2 <->
  count st1 = count st2 /\ checks st1 = checks st2
  /\ requests_log st1 = requests_log st2 /\ sleeps st1 = sleeps st2
  /\ stderr st1 = stderr st2.
Proof.
  unfold obs; split.
  - intros H; injection H; auto.
  - intros (-> & -> & -> & -> & ->); reflexivity.
Qed.

Lemma state_eq (st1 st2 : State) :
  obs st1 = obs st2 -> stdout st1 = stdout st2 -> st1 = st2.
Proof.
  destruct st1, st2; unfold obs; simpl.
  intros H ->; injection H; intros; subst; reflexivity.
Qed.

Lemma same_but_json_judge (r1 r2 : exception + Response) :
  same_but_json r1 r2 -> judge false r1 = judge false r2.
Proof.
  destruct r1 as [e1 | a], r2 as [e2 | b]; simpl; try contradiction.
  - intros ->; reflexivity.
  - intros [-> Hj]. destruct (status_code b =? 403); [ reflexivity | ].
    destruct (json_result a), (json_result b); try contradiction.
    + subst. reflexivity.
    + reflexivity.
Qed.

Lemma body_step_judged (w : World) (url : string) (verbose : bool)
    (timeout : Z) (st : State) (sig : signal unit) (st' : State) :
  can_write verbose w ->
  body_step w url verbose timeout st sig st' ->
  judged url verbose timeout (w (length (requests_log st)) url) st sig st'.
Proof.
  unfold judged.
  intros Hcan [out Ha Ht Ho | out Ha Hz Ht Ho | v out Ha Hv Hok Ho
               | e out Ha Ho].
  - rewrite (judge_failed verbose _
               (attempt_normal_failed w url verbose st _ Hcan Ha)).
    replace (negb (timeout =? 0) && (count st + 1 >? timeout)) with false;
      [ split; reflexivity | symmetry; apply timeout_test, Ht ].
  - rewrite (judge_failed verbose _
               (attempt_normal_failed w url verbose st _ Hcan Ha)).
    replace (negb (timeout =? 0) && (count st + 1 >? timeout)) with true;
      [ split; reflexivity
      | symmetry; apply timeout_test; split; assumption ].
  - rewrite (judge_successful verbose _ _ Hv).
    destruct Hok as [-> | [vm ->]]; [ | destruct verbose ];
      split; reflexivity.
  - rewrite (attempt_raise_escape w url verbose st _ e Hcan Ha).
    split; reflexivity.
Qed.

(** Two iterations with the same verdict, from states that differ in
    standard output at most, end alike. *)
Lemma judged_agree (url : string) (verbose1 verbose2 : bool) (timeout : Z)
    (r1 r2 : exception + Response) (st1 st2 : State)
    (sig1 sig2 : signal unit) (st1' st2' : State) :
  judge verbose1 r1 = judge verbose2 r2 ->
  obs st1 = obs st2 ->
  judged url verbose1 timeout r1 st1 sig1 st1' ->
  judged url verbose2 timeout r2 st2 sig2 st2' ->
  sig1 = sig2 /\ obs st1' = obs st2'.
Proof.
  unfold judged. intros <- Hobs.
  apply obs_fields in Hobs. destruct Hobs as (Hc & Hk & Hr & Hs & He).
  assert (Ht : obs (timed_out url st1) = obs (timed_out url st2))
    by (apply obs_fields; simpl; repeat split; congruence).
  assert (Hn : obs (retried url st1) = obs (retried url st2))
    by (apply obs_fields; simpl; repeat split; congruence).
  assert (Ha : obs (add_request url st1) = obs (add_request url st2))
    by (apply obs_fields; simpl; repeat split; congruence).
  rewrite Hc.
  destruct (judge verbose1 r1);
    [ destruct (negb (timeout =? 0) && (count st2 + 1 >? timeout)) | | ];
    intros [-> ->] [-> ->]; split; auto.
Qed.

(** Two worlds whose answers get the same verdicts, and whose consoles fail
    no write, drive the loop alike. *)
Lemma loop_agree (w1 w2 : World) (url : string) (verbose1 verbose2 : bool)
    (timeout : Z) (sc : SharedCondition) :
  can_write verbose1 w1 ->
  can_write verbose2 w2 ->
  (forall n, judge verbose1 (w1 n url) = judge verbose2 (w2 n url)) ->
  forall (fuel : nat) (st1 st2 : State),
    obs st1 = obs st2 ->
    fst (loop w1 url verbose1 timeout sc fuel st1)
    = fst (loop w2 url verbose2 timeout sc fuel st2)
    /\ obs (snd (loop w1 url verbose1 timeout sc fuel st1))
       = obs (snd (loop w2 url verbose2 timeout sc fuel st2)).
Proof.
  intros Hcan1 Hcan2 Hjudge.
  induction fuel as [| fuel IH]; intros st1 st2 Hobs.
  - split; [ reflexivity | exact Hobs ].
  - assert (Hk : checks st1 = checks st2) by (apply obs_fields in Hobs; tauto).
    assert (Hobs' : obs (add_check st1) = obs (add_check st2)).
    { apply obs_fields in Hobs. apply obs_fields; simpl.
      repeat split; try tauto. f_equal; tauto. }
    destruct (sleep (sc (checks st1))) eqn:Hflag.
    + rewrite (loop_step w1), (loop_step w2) by congruence.
      destruct (loop_body_step w1 url verbose1 timeout (add_check st1))
        as (sig1 & st1' & -> & Hstep1).
      destruct (loop_body_step w2 url verbose2 timeout (add_check st2))
        as (sig2 & st2' & -> & Hstep2).
      apply (body_step_judged _ _ _ _ _ _ _ Hcan1) in Hstep1.
      apply (body_step_judged _ _ _ _ _ _ _ Hcan2) in Hstep2.
      assert (Hr : requests_log (add_check st1) = requests_log (add_check st2))
        by (apply obs_fields in Hobs'; tauto).
      rewrite <- Hr in Hstep2.
      destruct (judged_agree url verbose1 verbose2 timeout _ _ _ _ _ _ _ _
                             (Hjudge _) Hobs' Hstep1 Hstep2) as [<- Hobs''].
      destruct sig1 as [[] | []]; auto.
    + rewrite (loop_cancelled w1), (loop_cancelled w2) by congruence.
      split; [ reflexivity | exact Hobs' ].
Qed.

(** ** From the loop to the call *)
Section Call.
Variables (w : World) (fuel : nat) (galaxy_url : string) (verbose : bool)
          (timeout : Z) (sleep_condition : option SharedCondition)
          (api_key : option string).

Let url := version_url galaxy_url api_key.
Let sc := condition_of sleep_condition.
Let r := galaxy_wait w fuel galaxy_url verbose timeout sleep_condition api_key.

Lemma galaxy_wait_loop :
  r = finish (loop w url verbose timeout sc fuel init_state).
Proof.
  unfold r, galaxy_wait, galaxy_wait_body, call, bind, modify, return_, abort,
    finish, loop, url, sc.
  change (set_count 0 init_state) with init_state.
  destruct (while_ fuel _ _ init_state) as [[[] | []] st]; reflexivity.
Qed.

Lemma galaxy_wait_quiet : quiet url verbose [] (snd r).
Proof.
  rewrite galaxy_wait_loop.
  pose proof (loop_quiet w url verbose timeout sc [] fuel init_state) as H.
  assert (H0 : quiet url verbose [] init_state)
    by (split; [ constructor | reflexivity ]).
  specialize (H H0).
  destruct (loop _ _ _ _ _ fuel init_state) as [[[] | []] st]; exact H.
Qed.

(** The books of a call. *)
Lemma galaxy_wait_accounted :
  exists sig st,
    r = finish (sig, st)
    /\ accounted w url verbose timeout sc sig st
    /\ (sig = Abrupt Unfinished -> checks st = fuel).
Proof.
  rewrite galaxy_wait_loop.
  pose proof (loop_accounted w url verbose timeout sc fuel init_state
                             (init_at_check _ _ _ _)) as H.
  pose proof (loop_unfinished_checks w url verbose timeout sc fuel init_state)
    as Hu.
  destruct (loop _ _ _ _ _ fuel init_state) as [sig st].
  exists sig, st; repeat split; [ exact H | ].
  intros ->. apply Hu. reflexivity.
Qed.
End Call.

Lemma rest_of_call_finish (w : World) (url : string) (verbose : bool)
    (timeout : Z) (sc : SharedCondition) (fuel : nat) (st : State) :
  rest_of_call w url verbose timeout sc fuel st
  = finish (loop w url verbose timeout sc fuel st).
Proof.
  unfold rest_of_call, call, bind, return_, abort, finish.
  destruct (loop w url verbose timeout sc fuel st) as [[[] | []] st'];
    reflexivity.
Qed.

(** Once the call has ended, more fuel changes nothing. *)
Lemma galaxy_wait_more_fuel (w : World) (fuel extra : nat)
    (galaxy_url : string) (verbose : bool) (timeout : Z)
    (sleep_condition : option SharedCondition) (api_key : option string) :
  fst (galaxy_wait w fuel galaxy_url verbose timeout sleep_condition api_key)
  <> Polling ->
  galaxy_wait w (fuel + extra) galaxy_url verbose timeout sleep_condition
              api_key
  = galaxy_wait w fuel galaxy_url verbose timeout sleep_condition api_key.
Proof.
  rewrite !galaxy_wait_loop. intros Hend.
  rewrite loop_more_fuel; [ reflexivity | ].
  intros Hu. apply Hend.
  destruct (loop _ _ _ _ _ fuel init_state) as [sig st]; simpl in *.
  rewrite Hu. reflexivity.
Qed.

(** The condition the function makes for itself is never found false. *)
Lemma own_condition_not_cancelled (st : State) :
  ~ cancelled (condition_of None) st.
Proof. intros (n & _ & H). discriminate H. Qed.

Lemma galaxy_wait_agree (w1 w2 : World) (fuel : nat) (galaxy_url : string)
    (verbose1 verbose2 : bool) (timeout : Z)
    (sleep_condition : option SharedCondition) (api_key : option string) :
  can_write verbose1 w1 ->
  can_write verbose2 w2 ->
  (forall n, judge verbose1 (w1 n (version_url galaxy_url api_key))
             = judge verbose2 (w2 n (version_url galaxy_url api_key))) ->
  fst (galaxy_wait w1 fuel galaxy_url verbose1 timeout sleep_condition api_key)
  = fst (galaxy_wait w2 fuel galaxy_url verbose2 timeout sleep_condition api_key)
  /\ obs (snd (galaxy_wait w1 fuel galaxy_url verbose1 timeout sleep_condition
                           api_key))
     = obs (snd (galaxy_wait w2 fuel galaxy_url verbose2 timeout sleep_condition
                             api_key)).
Proof.
  intros Hcan1 Hcan2 Hjudge. rewrite !galaxy_wait_loop.
  destruct (loop_agree w1 w2 _ verbose1 verbose2 timeout
                       (condition_of sleep_condition)
                       Hcan1 Hcan2 Hjudge fuel init_state init_state eq_refl)
    as [Hs Ho].
  destruct (loop w1 _ _ _ _ fuel init_state) as [sig1 st1].
  destruct (loop w2 _ _ _ _ fuel init_state) as [sig2 st2].
  simpl in Hs, Ho. subst sig2.
  destruct sig1 as [[] | []]; simpl; auto.
Qed.

(** A world on a reliable console fails no write. *)
Lemma reliable_console_ok (answer : nat -> string -> exception + Response) :
  console_ok (on_reliable_console answer).
Proof. intros n o. reflexivity. Qed.

(** ** The timeout *)

(** C1. With a timeout [N > 0], against a target whose every answer is a
    failed attempt (connection failure, 403 or a body that is not JSON),
    without cancellation and with no write to standard output failing,
    [galaxy_wait] is still polling after each of the attempts 1..N and
    returns [False] on attempt N+1: N+1 requests, [count] at N+1, and only N
    sleeps, none after the last attempt. *)
Theorem galaxy_wait_times_out_after_N_plus_1 (w : World) (galaxy_url : string)
    (verbose : bool) (timeout : Z) (sleep_condition : option SharedCondition)
    (api_key : option string) :
  0 < timeout ->
  can_write verbose w ->
  (forall i, (i <= Z.to_nat timeout)%nat ->
             failed_attempt (w i (version_url galaxy_url api_key)) = true) ->
  (forall i, (i <= Z.to_nat timeout)%nat ->
             sleep (condition_of sleep_condition i) = true) ->
  (forall fuel, (fuel <= Z.to_nat timeout)%nat ->
     exists st,
       galaxy_wait w fuel galaxy_url verbose timeout sleep_condition api_key
       = (Polling, st)
       /\ length (requests_log st) = fuel)
  /\ (forall fuel, (Z.to_nat timeout < fuel)%nat ->
     exists st,
       galaxy_wait w fuel galaxy_url verbose timeout sleep_condition api_key
       = (Returned false, st)
       /\ requests_log st
          = repeat (version_url galaxy_url api_key) (S (Z.to_nat timeout))
       /\ count st = timeout + 1
       /\ sleeps st = repeat DEFAULT_SLEEP_WAIT (Z.to_nat timeout)
       /\ stderr st = [failure_notice]).
Proof.
  intros Hpos Hcan Hfail Hflag.
  set (url := version_url galaxy_url api_key) in *.
  set (sc := condition_of sleep_condition) in *.
  split; intros fuel Hfuel; rewrite galaxy_wait_loop; fold url sc.
  - destruct (loop_failed_run w url verbose timeout sc fuel 0 init_state Hcan)
      as (st' & Hrun & Hadv).
    + intros i Hi; simpl. apply Hfail; lia.
    + intros i Hi; simpl. apply Hflag; lia.
    + right; simpl. lia.
    + rewrite Nat.add_0_r in Hrun. rewrite Hrun. exists st'; split.
      * reflexivity.
      * destruct Hadv as (_ & _ & Hr & _). rewrite Hr; simpl.
        apply repeat_length.
  - set (N := Z.to_nat timeout) in *.
    destruct (loop_failed_run w url verbose timeout sc N (fuel - N) init_state
                              Hcan)
      as (st' & Hrun & Hadv).
    + intros i Hi; simpl. apply Hfail; lia.
    + intros i Hi; simpl. apply Hflag; lia.
    + right; simpl. lia.
    + replace (N + (fuel - N))%nat with fuel in Hrun by lia.
      destruct Hadv as (Hc & Hk & Hr & Hs & He & _). simpl in *.
      destruct (fuel - N)%nat as [| f] eqn:Hf; [ lia | ].
      rewrite Hrun, loop_step by (rewrite Hk; apply Hflag; lia).
      destruct (loop_body_failed_timeout w url verbose timeout (add_check st')
                                         Hcan)
        as (out & Hbody & _).
      * simpl. rewrite Hr, repeat_length. apply Hfail; lia.
      * lia.
      * simpl. lia.
      * rewrite Hbody. eexists; split; [ reflexivity | ]. simpl.
        rewrite Hr, Hs, He, Hc. repeat split.
        -- change [url] with (repeat url 1). rewrite <- repeat_app.
           replace (N + 1)%nat with (S N) by lia. reflexivity.
        -- lia.
Qed.

Lemma galaxy_wait_times_out_after_N_plus_1_witness :
  exists st,
    galaxy_wait always_403 5 "http://localhost:8080" true 2 None None
    = (Returned false, st)
    /\ requests_log st = repeat "http://localhost:8080/api/version" 3
    /\ count st = 3
    /\ sleeps st = [1; 1]
    /\ stderr st = [failure_notice].
Proof.
  destruct (galaxy_wait_times_out_after_N_plus_1
              always_403 "http://localhost:8080" true 2 None None)
    as [_ H].
  - lia.
  - right. apply reliable_console_ok.
  - intros i _. reflexivity.
  - intros i _. reflexivity.
  - apply (H 5%nat). simpl. lia.
Defined.

(** ** Exceptions *)

(** C2, as stated, fails: an exception of [requests.get] that is not a
    [ConnectionError] leaves the call, and so does, under [verbose], the
    [KeyError] of a JSON body without ['version_major']. *)
Lemma exceptions_escape_galaxy_wait :
  fst (galaxy_wait connection_broken 1 "http://localhost:8080" false 0 None None)
  = Raised (RequestException "ChunkedEncodingError"
                             "Connection broken: IncompleteRead")
  /\ fst (galaxy_wait json_without_version 1 "http://localhost:8080" true 0 None
                      None)
     = Raised (KeyError "version_major").
Proof. split; reflexivity. Qed.

(** C2, amended.  As long as every call of [requests.get] raises a
    [ConnectionError] or returns a response on which [json()] returns or
    raises a [ValueError], and, under [verbose], every parsed body has
    ['version_major'] and no write to standard output fails, the call
    returns [True], returns [False] or is still polling: it never raises.
    An exception of another class that [requests.get] raises is not caught,
    and neither is one that [json()] raises: it ends the iteration and the
    call, whatever the console does. *)
Theorem galaxy_wait_absorbs_connection_errors (w : World) (fuel : nat)
    (galaxy_url : string) (verbose : bool) (timeout : Z)
    (sleep_condition : option SharedCondition) (api_key : option string) :
  let url := version_url galaxy_url api_key in
  let r := galaxy_wait w fuel galaxy_url verbose timeout sleep_condition
                       api_key in
  ((forall n, absorbed verbose (w n url) = true) ->
   can_write verbose w ->
   fst r = Returned true \/ fst r = Returned false \/ fst r = Polling)
  /\ (forall sc st e,
         w (length (requests_log st)) url = inl e ->
         is_ConnectionError e = false ->
         sleep (sc (checks st)) = true ->
         rest_of_call w url verbose timeout sc (S fuel) st
         = (Raised e, add_request url (add_check st)))
  /\ (forall sc st result e,
         w (length (requests_log st)) url = inr result ->
         status_code result <> 403 ->
         json_result result = inl e ->
         is_ValueError e = false ->
         is_ConnectionError e = false ->
         sleep (sc (checks st)) = true ->
         rest_of_call w url verbose timeout sc (S fuel) st
         = (Raised e, add_request url (add_check st))).
Proof.
  intros url r; split; [ | split ].
  - intros Habs Hcan. subst r.
    destruct (galaxy_wait_accounted w fuel galaxy_url verbose timeout
                sleep_condition api_key) as (sig & st & -> & Hacc & _).
    fold url in Hacc.
    destruct sig as [[] | [ | [] | e | ]]; simpl in *; auto; try contradiction.
    exfalso.
    destruct Hacc as (n & _ & _ & _ & _ & _ & _ & _ & Hesc).
    specialize (Hesc Hcan). specialize (Habs n).
    unfold absorbed in Habs.
    destruct (judge_escape verbose _ _ Hesc)
      as [[Hr Hc] | [(result & Hr & H403 & Hj & Hv & Hc)
                    | (Hverb & v & Hv & Hget)]].
    + rewrite Hr in Habs. congruence.
    + rewrite Hr, H403, Hj, Hv, Hc in Habs. discriminate.
    + unfold successful in Hv.
      destruct (w n url) as [e' | result]; [ discriminate | ].
      destruct (status_code result =? 403); [ discriminate | ].
      destruct (json_result result) as [e' | v']; [ discriminate | ].
      injection Hv as ->. rewrite Hverb, Hget in Habs. discriminate.
  - intros sc st e He Hc Hflag. rewrite rest_of_call_finish.
    rewrite (loop_step w url verbose timeout sc fuel st Hflag).
    rewrite (loop_body_abrupt w url verbose timeout _ _ _
               (attempt_raises w url verbose (add_check st) e He Hc)).
    reflexivity.
  - intros sc st result e Hr H403 Hj Hv Hc Hflag. rewrite rest_of_call_finish.
    rewrite (loop_step w url verbose timeout sc fuel st Hflag).
    apply Z.eqb_neq in H403.
    rewrite (loop_body_abrupt w url verbose timeout _ _ _
               (attempt_json_raises w url verbose (add_check st) result e
                                    Hr H403 Hj Hv Hc)).
    reflexivity.
Qed.

Lemma galaxy_wait_absorbs_connection_errors_witness :
  fst (galaxy_wait not_json_then_up 4 "http://localhost:8080" true 0 None None)
  = Returned true
  \/ fst (galaxy_wait not_json_then_up 4 "http://localhost:8080" true 0 None
                      None) = Returned false
  \/ fst (galaxy_wait not_json_then_up 4 "http://localhost:8080" true 0 None
                      None) = Polling.
Proof.
  apply (galaxy_wait_absorbs_connection_errors
           not_json_then_up 4 "http://localhost:8080" true 0 None None).
  - intros [| n]; reflexivity.
  - right. apply reliable_console_ok.
Defined.

(** C3 on the code: under [verbose], a 200 response whose body is JSON without
    ['version_major'] (an object without the key, or a list) does not make
    the call return [True]: the lookup for the progress message raises, the
    exception leaves the call, and this for any base URL, timeout, key and
    amount of fuel.  The same responses without [verbose] make the call
    return [True]. *)
Theorem verbose_wait_raises_without_version_major :
  forall (fuel : nat) (galaxy_url : string) (timeout : Z)
         (api_key : option string),
    fst (galaxy_wait json_without_version (S fuel) galaxy_url true timeout None
                     api_key)
    = Raised (KeyError "version_major")
    /\ fst (galaxy_wait json_list (S fuel) galaxy_url true timeout None api_key)
       = Raised TypeError
    /\ fst (galaxy_wait json_without_version (S fuel) galaxy_url false timeout
                        None api_key)
       = Returned true
    /\ fst (galaxy_wait json_list (S fuel) galaxy_url false timeout None
                        api_key)
       = Returned true.
Proof. intros; repeat split; reflexivity. Qed.

(** ** No timeout *)

(** C4. With [timeout = 0] the call never returns [False], whatever the
    target, the console and the caller do.  When it returns, it is because
    the condition was found false (cancellation) or because the last request
    was answered by a successful response; when no write fails, a failed
    attempt never ends the call.  Against a target whose every answer is a
    failed attempt, without cancellation, it polls for ever: one request for
    each unit of fuel, and no end. *)
Theorem galaxy_wait_without_timeout_never_false (w : World) (fuel : nat)
    (galaxy_url : string) (verbose : bool)
    (sleep_condition : option SharedCondition) (api_key : option string) :
  let url := version_url galaxy_url api_key in
  let sc := condition_of sleep_condition in
  let r := galaxy_wait w fuel galaxy_url verbose 0 sleep_condition api_key in
  fst r <> Returned false
  /\ (forall b, fst r = Returned b ->
        cancelled sc (snd r)
        \/ exists a v, last_answer w url (snd r) a /\ successful a = Some v)
  /\ (can_write verbose w ->
      fst r <> Polling ->
      cancelled sc (snd r)
      \/ exists a, last_answer w url (snd r) a /\ failed_attempt a = false)
  /\ (can_write verbose w ->
      (forall i, failed_attempt (w i url) = true) ->
      (forall i, sleep (sc i) = true) ->
      fst r = Polling /\ length (requests_log (snd r)) = fuel).
Proof.
  intros url sc r. subst r.
  assert (Hlast : forall st n,
             length (requests_log st) = S n ->
             Forall (eq url) (requests_log st) ->
             last_answer w url st (w n url)).
  { intros st n Hlen Hall.
    destruct (exists_last (l := requests_log st)) as (l & u & Hl).
    { intros Hnil. rewrite Hnil in Hlen. discriminate. }
    rewrite Hl in Hlen, Hall. rewrite length_app in Hlen. simpl in Hlen.
    apply Forall_app in Hall. destruct Hall as [_ Hu].
    inversion Hu as [| ? ? Heq _]; subst.
    exists l; split; [ exact Hl | ].
    replace (length l) with n by lia. reflexivity. }
  pose proof (galaxy_wait_quiet w fuel galaxy_url verbose 0 sleep_condition
                                api_key) as [Hurl _].
  destruct (galaxy_wait_accounted w fuel galaxy_url verbose 0 sleep_condition
                                  api_key) as (sig & st & Heq & Hacc & _).
  fold url sc in Hacc, Hurl, Hlast. rewrite Heq in Hurl |- *.
  split; [ | split; [ | split ] ].
  - destruct sig as [[] | [ | b | e | ]]; simpl in *; try discriminate.
    destruct Hacc as (_ & Hz & _). contradiction Hz; reflexivity.
  - intros b.
    destruct sig as [[] | [ | b' | e | ]]; simpl in *; try discriminate.
    + intros _. destruct Hacc as (n & _ & Hk & _ & _ & _ & _ & Hreq).
      destruct Hreq as [[_ Hflag] | [Hr [_ (v & Hv & _)]]].
      * left. exists n; split; assumption.
      * right. exists (w n url), v; split; [ apply Hlast | ]; assumption.
    + destruct Hacc as (_ & Hz & _). contradiction Hz; reflexivity.
  - intros Hcan.
    destruct sig as [[] | [ | b' | e | ]]; simpl in *; intros Hend.
    + destruct Hacc as (n & _ & Hk & _ & _ & _ & _ & Hreq).
      destruct Hreq as [[_ Hflag] | [Hr [_ (v & Hv & _)]]].
      * left. exists n; split; assumption.
      * right. exists (w n url); split; [ apply Hlast; assumption | ].
        apply (successful_not_failed _ v Hv).
    + contradiction.
    + destruct Hacc as (_ & Hz & _). contradiction Hz; reflexivity.
    + right. destruct Hacc as (n & _ & _ & Hr & _ & _ & _ & _ & Hesc).
      exists (w n url); split; [ apply Hlast; assumption | ].
      specialize (Hesc Hcan).
      destruct (failed_attempt (w n url)) eqn:Hf; [ | reflexivity ].
      rewrite (judge_failed verbose _ Hf) in Hesc. discriminate.
    + contradiction Hend; reflexivity.
  - intros Hcan Hfail Hflag. rewrite <- Heq, galaxy_wait_loop. fold url sc.
    destruct (loop_failed_run w url verbose 0 sc fuel 0 init_state Hcan)
      as (st' & Hrun & Hadv); auto.
    rewrite Nat.add_0_r in Hrun. rewrite Hrun. simpl.
    destruct Hadv as (_ & _ & Hr & _). rewrite Hr.
    split; [ reflexivity | apply repeat_length ].
Qed.

Lemma galaxy_wait_without_timeout_never_false_witness :
  fst (galaxy_wait always_refused 40 "http://localhost:8080" false 0 None None)
  = Polling
  /\ length (requests_log
               (snd (galaxy_wait always_refused 40 "http://localhost:8080"
                                 false 0 None None))) = 40%nat.
Proof.
  apply (galaxy_wait_without_timeout_never_false
           always_refused 40 "http://localhost:8080" false None None).
  - left. reflexivity.
  - intros i. reflexivity.
  - intros i. reflexivity.
Defined.

(** ** A 403 and a connection failure *)

(** C5. Two runs that differ only in that, at some iterations, one gets a 403
    where the other gets a connection failure end with the same outcome after
    the same number of requests, with the same [count], the same sleeps and
    the same standard error, when no write to standard output fails.  A 403
    is a failed attempt even with a JSON body: the [try] statement completes
    normally and [count] is incremented. *)
Theorem http_403_like_connection_failure (w1 w2 : World) (fuel : nat)
    (galaxy_url : string) (verbose : bool) (timeout : Z)
    (sleep_condition : option SharedCondition) (api_key : option string) :
  can_write verbose w1 ->
  can_write verbose w2 ->
  (forall n u,
      w1 n u = w2 n u
      \/ (connection_failure_or_403 (w1 n u) = true
          /\ connection_failure_or_403 (w2 n u) = true)) ->
  let r1 := galaxy_wait w1 fuel galaxy_url verbose timeout sleep_condition
                        api_key in
  let r2 := galaxy_wait w2 fuel galaxy_url verbose timeout sleep_condition
                        api_key in
  fst r1 = fst r2
  /\ length (requests_log (snd r1)) = length (requests_log (snd r2))
  /\ obs (snd r1) = obs (snd r2)
  /\ (forall st result,
         w1 (length (requests_log st)) (version_url galaxy_url api_key)
         = inr result ->
         status_code result = 403 ->
         fst (attempt w1 (version_url galaxy_url api_key) verbose st)
         = Normal tt
         /\ count (snd (loop_body w1 (version_url galaxy_url api_key) verbose
                                  timeout st)) = count st + 1).
Proof.
  intros Hcan1 Hcan2 Hw r1 r2.
  destruct (galaxy_wait_agree w1 w2 fuel galaxy_url verbose verbose timeout
                              sleep_condition api_key Hcan1 Hcan2)
    as [Hf Ho].
  { intros n. destruct (Hw n (version_url galaxy_url api_key)) as [-> | [H1 H2]];
      [ reflexivity | ].
    rewrite !judge_failed by (apply connection_failure_or_403_failed; assumption).
    reflexivity. }
  fold r1 r2 in Hf, Ho.
  split; [ exact Hf | split; [ | split; [ exact Ho | ] ] ].
  - apply obs_fields in Ho. destruct Ho as (_ & _ & -> & _). reflexivity.
  - intros st result Hget H403.
    assert (Hfail : failed_attempt
      (w1 (length (requests_log st)) (version_url galaxy_url api_key)) = true).
    { rewrite Hget; simpl. rewrite H403; reflexivity. }
    split.
    + destruct (attempt_failed w1 _ verbose st Hcan1 Hfail) as (out & -> & _).
      reflexivity.
    + destruct (loop_body_step w1 (version_url galaxy_url api_key) verbose
                               timeout st) as (sig & st' & -> & Hstep).
      apply (body_step_judged _ _ _ _ _ _ _ Hcan1) in Hstep.
      unfold judged in Hstep.
      rewrite (judge_failed verbose _ Hfail) in Hstep.
      destruct (negb (timeout =? 0) && (count st + 1 >? timeout));
        destruct Hstep as [_ Hobs]; apply obs_fields in Hobs;
        destruct Hobs as (Hc & _); exact Hc.
Qed.

Lemma http_403_like_connection_failure_witness :
  fst (galaxy_wait always_403_json 9 "http://localhost:8080" true 2 None
                   (Some "key=abc"))
  = fst (galaxy_wait always_refused 9 "http://localhost:8080" true 2 None
                     (Some "key=abc"))
  /\ fst (galaxy_wait always_403_json 9 "http://localhost:8080" true 2 None
                      (Some "key=abc")) = Returned false.
Proof.
  split.
  - apply (http_403_like_connection_failure always_403_json always_refused).
    + right. apply reliable_console_ok.
    + right. apply reliable_console_ok.
    + intros n u. right. split; reflexivity.
  - reflexivity.
Defined.

(** ** Failures, then a Galaxy *)

(** C6, as stated, fails.  With a timeout of 1, two refused connections and
    then a Galaxy: the second failure brings [count] to 2, over the timeout,
    and the call returns [False] without a third request; it returns [True]
    for no amount of fuel. *)
Lemma failures_then_json_may_time_out :
  galaxy_wait (refused_then_up 2) 3 "http://localhost:8080" false 1 None None
  = (Returned false,
     {| count := 2; checks := 2;
        requests_log := ["http://localhost:8080/api/version";
                         "http://localhost:8080/api/version"];
        sleeps := [1]; stdout := []; stderr := [failure_notice] |})
  /\ (forall fuel,
         fst (galaxy_wait (refused_then_up 2) fuel "http://localhost:8080" false
                          1 None None) <> Returned true).
Proof.
  split; [ reflexivity | ].
  intros [| [| [| fuel]]]; discriminate.
Qed.

(** C6, amended.  [k] connection failures followed by a response that is not
    a 403 and whose body is JSON make the call return [True] with
    [count = k], after [k + 1] requests and [k] sleeps, provided the timeout
    is 0 or at least [k], the call is not cancelled and, under [verbose], the
    body is an object with ['version_major'] and no write to standard output
    fails. *)
Theorem failures_then_json_returns_true (w : World) (k fuel : nat)
    (galaxy_url : string) (verbose : bool) (timeout : Z)
    (sleep_condition : option SharedCondition) (api_key : option string)
    (result : Response) (v : pyvalue) :
  let url := version_url galaxy_url api_key in
  (forall i, (i < k)%nat -> exists msg, w i url = inl (ConnectionError msg)) ->
  w k url = inr result ->
  status_code result <> 403 ->
  json_result result = inr v ->
  verbose = false \/ (exists vm, getitem v "version_major" = inr vm) ->
  can_write verbose w ->
  timeout = 0 \/ Z.of_nat k <= timeout ->
  (forall i, (i <= k)%nat -> sleep (condition_of sleep_condition i) = true) ->
  (k < fuel)%nat ->
  exists st,
    galaxy_wait w fuel galaxy_url verbose timeout sleep_condition api_key
    = (Returned true, st)
    /\ count st = Z.of_nat k
    /\ requests_log st = repeat url (S k)
    /\ sleeps st = repeat DEFAULT_SLEEP_WAIT k
    /\ stderr st = [].
Proof.
  intros url Hfail Hup H403 Hjson Hlog Hcan Htime Hflag Hfuel.
  set (sc := condition_of sleep_condition) in *.
  rewrite galaxy_wait_loop. fold url sc.
  destruct (loop_failed_run w url verbose timeout sc k (fuel - k) init_state
                            Hcan)
    as (st' & Hrun & Hadv).
  - intros i Hi; simpl. destruct (Hfail i Hi) as [msg ->]. reflexivity.
  - intros i Hi; simpl. apply Hflag; lia.
  - simpl. exact Htime.
  - replace (k + (fuel - k))%nat with fuel in Hrun by lia.
    destruct Hadv as (Hc & Hk & Hr & Hs & He & _). simpl in *.
    destruct (fuel - k)%nat as [| f] eqn:Hf; [ lia | ].
    rewrite Hrun, loop_step by (rewrite Hk; apply Hflag; lia).
    destruct (attempt_successful w url verbose (add_check st') v Hcan)
      as (out & Ha & _).
    + simpl. rewrite Hr, repeat_length. unfold successful. rewrite Hup.
      apply Z.eqb_neq in H403. rewrite H403, Hjson. reflexivity.
    + exact Hlog.
    + rewrite (loop_body_abrupt w url verbose timeout _ _ _ Ha).
      eexists; split; [ reflexivity | ]. simpl.
      rewrite Hr, Hs, He, Hc. repeat split.
      change [url] with (repeat url 1). rewrite <- repeat_app.
      replace (k + 1)%nat with (S k) by lia. reflexivity.
Qed.

(** Scenario A of the specification: three refused connections, then the
    body [{"version_major": "23.0"}]. *)
Lemma failures_then_json_returns_true_witness :
  exists st,
    galaxy_wait (refused_then_up 3) 8 "http://localhost:8080" true 0 None None
    = (Returned true, st)
    /\ count st = 3
    /\ requests_log st = repeat "http://localhost:8080/api/version" 4
    /\ sleeps st = [1; 1; 1]
    /\ stderr st = [].
Proof.
  eapply (failures_then_json_returns_true
            (refused_then_up 3) 3 8 "http://localhost:8080" true 0 None None).
  - intros [| [| [| i]]] Hi; try (eexists; reflexivity). exfalso; lia.
  - reflexivity.
  - simpl. discriminate.
  - reflexivity.
  - right. eexists; reflexivity.
  - right. apply reliable_console_ok.
  - left; reflexivity.
  - intros i _. reflexivity.
  - lia.
Defined.

(** ** The URL *)

(** C7. With a non-empty [api_key] the URL polled is the base URL, then
    ["/api/version?"], then the key as it is, character for character: every
    request of the call goes to that URL. *)
Theorem api_key_appended_literally (w : World) (fuel : nat)
    (galaxy_url : string) (verbose : bool) (timeout : Z)
    (sleep_condition : option SharedCondition) (api_key : string) :
  api_key <> "" ->
  version_url galaxy_url (Some api_key)
  = galaxy_url ++ "/api/version?" ++ api_key
  /\ Forall (eq (galaxy_url ++ "/api/version?" ++ api_key))
            (requests_log
               (snd (galaxy_wait w fuel galaxy_url verbose timeout
                                 sleep_condition (Some api_key)))).
Proof.
  intros Hkey.
  assert (Hurl : version_url galaxy_url (Some api_key)
                 = galaxy_url ++ "/api/version?" ++ api_key).
  { unfold version_url, truthy, str_of.
    destruct (String.eqb_spec api_key "") as [He | _]; [ contradiction | ].
    simpl negb. cbv iota.
    induction galaxy_url as [| c s IH]; simpl; [ reflexivity | ].
    f_equal. exact IH. }
  split; [ exact Hurl | ].
  rewrite <- Hurl. apply galaxy_wait_quiet.
Qed.

(** Scenario D of the specification. *)
Lemma api_key_appended_literally_witness :
  version_url "http://localhost:8080" (Some "key=abc")
  = "http://localhost:8080/api/version?key=abc"
  /\ requests_log
       (snd (galaxy_wait always_403 2 "http://localhost:8080" false 0 None
                         (Some "key=abc")))
     = ["http://localhost:8080/api/version?key=abc";
        "http://localhost:8080/api/version?key=abc"].
Proof.
  split.
  - apply (api_key_appended_literally always_403 2 "http://localhost:8080"
                                      false 0 None "key=abc").
    discriminate.
  - reflexivity.
Defined.

(** ** The exit status *)



(** ** Cancellation *)

(** C9. Whenever the loop condition is evaluated and the [sleep] flag of the
    shared condition is found false, the call returns [True] without a
    further request, sleep or write.  A call with a condition that is
    cancelled already returns [True] with no request made at all, and its
    outcome is the one of a call that a Galaxy answers at once. *)
Theorem cancelled_wait_returns_true (w : World) (fuel : nat)
    (galaxy_url : string) (verbose : bool) (timeout : Z)
    (sc : SharedCondition) (api_key : option string) (st : State) :
  (sleep (sc (checks st)) = false ->
   rest_of_call w (version_url galaxy_url api_key) verbose timeout sc (S fuel) st
   = (Returned true, add_check st))
  /\ (sleep (sc 0%nat) = false ->
      galaxy_wait w (S fuel) galaxy_url verbose timeout (Some sc) api_key
      = (Returned true, add_check init_state)
      /\ requests_log (add_check init_state) = []
      /\ fst (galaxy_wait w (S fuel) galaxy_url verbose timeout (Some sc) api_key)
         = fst (galaxy_wait galaxy_up (S fuel) galaxy_url verbose timeout None
                            api_key)).
Proof.
  split.
  - intros Hflag. rewrite rest_of_call_finish.
    rewrite (loop_cancelled w _ verbose timeout sc fuel st Hflag). reflexivity.
  - intros Hflag.
    assert (Hgw : galaxy_wait w (S fuel) galaxy_url verbose timeout (Some sc)
                              api_key = (Returned true, add_check init_state)).
    { rewrite galaxy_wait_loop. simpl condition_of.
      rewrite (loop_cancelled w _ verbose timeout sc fuel init_state Hflag).
      reflexivity. }
    rewrite Hgw. repeat split.
    destruct verbose; reflexivity.
Qed.

Lemma cancelled_wait_returns_true_witness :
  galaxy_wait always_refused 1 "http://localhost:8080" true 0
              (Some (fun _ => cancel SleepCondition_init)) None
  = (Returned true, add_check init_state).
Proof.
  apply (cancelled_wait_returns_true
           always_refused 0 "http://localhost:8080" true 0
           (fun _ => cancel SleepCondition_init) None init_state).
  reflexivity.
Defined.

(** ** Without [verbose] *)

(** C10. Without [verbose], [galaxy_wait] writes nothing to standard output;
    a response that is not a 403 and whose body parses makes the call return
    [True] at once, whatever the parsed value is; an exception that leaves
    the call was raised by [requests.get] or by [json()], never by a lookup
    in the parsed value; and the whole run is the same for two targets whose
    answers differ only in the values the bodies parse to: ['version_major']
    is never looked up. *)
Theorem quiet_wait_ignores_json_shape (w w' : World) (fuel : nat)
    (galaxy_url : string) (timeout : Z)
    (sleep_condition : option SharedCondition) (api_key : option string) :
  let url := version_url galaxy_url api_key in
  let r := galaxy_wait w fuel galaxy_url false timeout sleep_condition api_key in
  stdout (snd r) = []
  /\ (forall sc st v,
         successful (w (length (requests_log st)) url) = Some v ->
         sleep (sc (checks st)) = true ->
         rest_of_call w url false timeout sc (S fuel) st
         = (Returned true, add_request url (add_check st)))
  /\ (forall e, fst r = Raised e ->
        exists n,
          (w n url = inl e /\ is_ConnectionError e = false)
          \/ (exists result,
                w n url = inr result /\ status_code result <> 403
                /\ json_result result = inl e
                /\ is_ValueError e = false /\ is_ConnectionError e = false))
  /\ ((forall n, same_but_json (w n url) (w' n url)) ->
      galaxy_wait w' fuel galaxy_url false timeout sleep_condition api_key = r).
Proof.
  intros url r. split; [ | split; [ | split ] ].
  - apply (galaxy_wait_quiet w fuel galaxy_url false timeout sleep_condition
                             api_key). reflexivity.
  - intros sc st v Hv Hflag. rewrite rest_of_call_finish.
    rewrite (loop_step w url false timeout sc fuel st Hflag).
    destruct (attempt_successful w url false (add_check st) v
                (or_introl eq_refl) Hv (or_introl eq_refl))
      as (out & Ha & Hout).
    rewrite (loop_body_abrupt w url false timeout _ _ _ Ha).
    rewrite (Hout eq_refl). reflexivity.
  - intros e. subst r.
    destruct (galaxy_wait_accounted w fuel galaxy_url false timeout
                sleep_condition api_key) as (sig & st & -> & Hacc & _).
    fold url in Hacc.
    destruct sig as [[] | [ | b | e' | ]]; simpl in *; try discriminate;
      try contradiction.
    intros [= ->].
    destruct Hacc as (n & _ & _ & _ & _ & _ & _ & _ & Hesc).
    specialize (Hesc (or_introl eq_refl)). exists n.
    destruct (judge_escape false _ _ Hesc)
      as [Hget | [(result & Hr & H403 & Hj & Hv & Hc) | (Hverb & _)]].
    + left. exact Hget.
    + right. exists result. apply Z.eqb_neq in H403.
      repeat split; assumption.
    + discriminate Hverb.
  - intros Hsame. subst r.
    destruct (galaxy_wait_agree w' w fuel galaxy_url false false timeout
                sleep_condition api_key (or_introl eq_refl) (or_introl eq_refl))
      as [Hf Ho].
    { intros n. apply same_but_json_judge.
      specialize (Hsame n). fold url.
      destruct (w n url) as [e1 | a], (w' n url) as [e2 | b]; simpl in *;
        try contradiction.
      - symmetry; exact Hsame.
      - destruct Hsame as [-> Hj]. split; [ reflexivity | ].
        destruct (json_result a), (json_result b); try contradiction; auto. }
    pose proof (galaxy_wait_quiet w' fuel galaxy_url false timeout
                                  sleep_condition api_key) as [_ H1].
    pose proof (galaxy_wait_quiet w fuel galaxy_url false timeout
                                  sleep_condition api_key) as [_ H2].
    destruct (galaxy_wait w' _ _ _ _ _ _) as [o1 st1].
    destruct (galaxy_wait w _ _ _ _ _ _) as [o2 st2].
    simpl in *. subst o2. f_equal.
    apply state_eq; [ exact Ho | ]. rewrite H1, H2; reflexivity.
Qed.

Lemma quiet_wait_ignores_json_shape_witness :
  galaxy_wait json_list 3 "http://localhost:8080" false 7 None None
  = galaxy_wait galaxy_up 3 "http://localhost:8080" false 7 None None
  /\ fst (galaxy_wait json_list 3 "http://localhost:8080" false 7 None None)
     = Returned true.
Proof.
  split.
  - apply (quiet_wait_ignores_json_shape galaxy_up json_list 3
             "http://localhost:8080" 7 None None).
    intros n. simpl. split; [ reflexivity | exact I ].
  - reflexivity.
Defined.

(** * More properties of [galaxy_wait] *)

(** X1. A timeout other than 0 bounds the wait whatever the target, the
    console and the caller do: the call never makes more than
    [max(timeout, 0) + 1] requests, and it has ended by the time the loop
    condition has been evaluated that many times. *)
Theorem nonzero_timeout_bounds_the_wait (w : World) (fuel : nat)
    (galaxy_url : string) (verbose : bool) (timeout : Z)
    (sleep_condition : option SharedCondition) (api_key : option string) :
  timeout <> 0 ->
  let r := galaxy_wait w fuel galaxy_url verbose timeout sleep_condition
                       api_key in
  (length (requests_log (snd r)) <= S (Z.to_nat timeout))%nat
  /\ ((Z.to_nat timeout < fuel)%nat -> fst r <> Polling).
Proof.
  intros Hz r. subst r.
  destruct (galaxy_wait_accounted w fuel galaxy_url verbose timeout
              sleep_condition api_key) as (sig & st & -> & Hacc & Hfuel).
  destruct sig as [[] | [ | b | e | ]]; simpl in *.
  - destruct Hacc as (n & _ & _ & _ & _ & _ & Hb & Hreq).
    destruct Hb as [Hb | Hb]; [ contradiction | ].
    split; [ | discriminate ].
    destruct Hreq as [[-> _] | [-> _]]; lia.
  - contradiction.
  - destruct Hacc as (_ & _ & n & Hn & _ & _ & -> & _).
    split; [ lia | discriminate ].
  - destruct Hacc as (n & _ & _ & -> & _ & _ & _ & Hb & _).
    destruct Hb as [Hb | Hb]; [ contradiction | ].
    split; [ lia | discriminate ].
  - destruct Hacc as (_ & Hk & Hr & _ & _ & _ & Hb).
    destruct Hb as [Hb | Hb]; [ contradiction | ].
    split; [ lia | ].
    intros Hlt _. specialize (Hfuel eq_refl). lia.
Qed.

Lemma nonzero_timeout_bounds_the_wait_witness :
  (length (requests_log
             (snd (galaxy_wait always_refused 9 "http://localhost:8080" false 3
                               None None))) <= 4)%nat
  /\ fst (galaxy_wait always_refused 9 "http://localhost:8080" false 3 None
                      None) <> Polling.
Proof.
  destruct (nonzero_timeout_bounds_the_wait
              always_refused 9 "http://localhost:8080" false 3 None None)
    as [H1 H2].
  - discriminate.
  - split; [ exact H1 | apply H2; simpl; lia ].
Defined.

(** X2. A negative timeout is no "wait for ever": the first failed attempt
    already has [count = 1 > timeout], and the call returns [False] after one
    request and no sleep (no write to standard output failing). *)
Theorem negative_timeout_gives_up_at_once (w : World) (fuel : nat)
    (galaxy_url : string) (verbose : bool) (timeout : Z)
    (sleep_condition : option SharedCondition) (api_key : option string) :
  timeout < 0 ->
  can_write verbose w ->
  failed_attempt (w 0%nat (version_url galaxy_url api_key)) = true ->
  sleep (condition_of sleep_condition 0%nat) = true ->
  exists st,
    galaxy_wait w (S fuel) galaxy_url verbose timeout sleep_condition api_key
    = (Returned false, st)
    /\ requests_log st = [version_url galaxy_url api_key]
    /\ count st = 1
    /\ sleeps st = []
    /\ stderr st = [failure_notice].
Proof.
  intros Hneg Hcan Hfail Hflag. rewrite galaxy_wait_loop.
  rewrite (loop_step w _ verbose timeout _ fuel init_state Hflag).
  destruct (loop_body_failed_timeout w (version_url galaxy_url api_key) verbose
              timeout (add_check init_state) Hcan Hfail) as (out & -> & _).
  - lia.
  - simpl; lia.
  - eexists; split; [ reflexivity | ]. repeat split.
Qed.

Lemma negative_timeout_gives_up_at_once_witness :
  exists st,
    galaxy_wait always_refused 1 "http://localhost:8080" false (-5) None None
    = (Returned false, st)
    /\ requests_log st = ["http://localhost:8080/api/version"]
    /\ count st = 1
    /\ sleeps st = []
    /\ stderr st = [failure_notice].
Proof.
  apply (negative_timeout_gives_up_at_once
           always_refused 0 "http://localhost:8080" false (-5) None None).
  - lia.
  - left. reflexivity.
  - reflexivity.
  - reflexivity.
Defined.

(** X3. [False] means the timeout and nothing else: when the call returns
    [False], the timeout is not 0 and [count], which is the number of
    requests, is exactly [max(timeout, 0) + 1]; and when no write to standard
    output failed, every request made was answered by a failed attempt. *)
Theorem false_only_by_timeout (w : World) (fuel : nat)
    (galaxy_url : string) (verbose : bool) (timeout : Z)
    (sleep_condition : option SharedCondition) (api_key : option string) :
  let r := galaxy_wait w fuel galaxy_url verbose timeout sleep_condition
                       api_key in
  fst r = Returned false ->
  timeout <> 0
  /\ count (snd r) = Z.max 0 timeout + 1
  /\ Z.of_nat (length (requests_log (snd r))) = count (snd r)
  /\ (can_write verbose w ->
      all_failed w (version_url galaxy_url api_key)
                 (length (requests_log (snd r)))).
Proof.
  intros r. subst r.
  destruct (galaxy_wait_accounted w fuel galaxy_url verbose timeout
              sleep_condition api_key) as (sig & st & -> & Hacc & _).
  destruct sig as [[] | [ | b | e | ]]; simpl in *; try discriminate;
    try contradiction.
  destruct Hacc as (-> & Hz & n & Hn & Hc & _ & Hr & _ & _ & Hf).
  intros _. rewrite Hr, Hc. repeat split; try assumption; lia.
Qed.

Lemma false_only_by_timeout_witness :
  count (snd (galaxy_wait always_403 7 "http://localhost:8080" false 2 None
                          None)) = Z.max 0 2 + 1.
Proof.
  apply (false_only_by_timeout always_403 7 "http://localhost:8080" false 2
                               None None).
  reflexivity.
Defined.

(** X4. Standard error holds the one line ["Failed to contact Galaxy\n"] when
    the call returns [False], and nothing in every other case: while polling,
    on [True], and when an exception leaves the call. *)
Theorem stderr_only_on_timeout (w : World) (fuel : nat)
    (galaxy_url : string) (verbose : bool) (timeout : Z)
    (sleep_condition : option SharedCondition) (api_key : option string) :
  let r := galaxy_wait w fuel galaxy_url verbose timeout sleep_condition
                       api_key in
  stderr (snd r)
  = match fst r with
    | Returned false => [failure_notice]
    | _ => []
    end.
Proof.
  intros r. subst r.
  destruct (galaxy_wait_accounted w fuel galaxy_url verbose timeout
              sleep_condition api_key) as (sig & st & -> & Hacc & _).
  destruct sig as [[] | [ | b | e | ]]; simpl in *.
  - destruct Hacc as (n & _ & _ & _ & He & _). exact He.
  - contradiction.
  - destruct Hacc as (-> & _ & n & _ & _ & _ & _ & _ & He & _). exact He.
  - destruct Hacc as (n & _ & _ & _ & _ & He & _). exact He.
  - destruct Hacc as (_ & _ & _ & _ & He & _). exact He.
Qed.

(** X5. The books of a run, at any moment and for any target: [count] is the
    number of attempts counted so far, all of them at the head of the run,
    and these were failed attempts when no write to standard output failed;
    every sleep lasts [DEFAULT_SLEEP_WAIT] and there is one sleep for each
    counted attempt, except the one on which the call returns [False]; and
    there is one request for each counted attempt, plus the one that ended
    the call by a success or an exception. *)
Theorem one_request_and_one_sleep_per_failure (w : World) (fuel : nat)
    (galaxy_url : string) (verbose : bool) (timeout : Z)
    (sleep_condition : option SharedCondition) (api_key : option string) :
  let r := galaxy_wait w fuel galaxy_url verbose timeout sleep_condition
                       api_key in
  exists n : nat,
    count (snd r) = Z.of_nat n
    /\ (can_write verbose w ->
        all_failed w (version_url galaxy_url api_key) n)
    /\ sleeps (snd r)
       = repeat DEFAULT_SLEEP_WAIT
                (match fst r with Returned false => n - 1 | _ => n end)
    /\ (n <= length (requests_log (snd r)) <= S n)%nat
    /\ (length (requests_log (snd r)) = S n
        <-> (exists e, fst r = Raised e)
            \/ (fst r = Returned true
                /\ ~ cancelled (condition_of sleep_condition) (snd r))).
Proof.
  intros r. subst r.
  destruct (galaxy_wait_accounted w fuel galaxy_url verbose timeout
              sleep_condition api_key) as (sig & st & -> & Hacc & _).
  destruct sig as [[] | [ | b | e | ]]; simpl in *.
  - destruct Hacc as (n & Hc & Hk & Hs & _ & Hf & _ & Hreq).
    exists n. repeat apply conj; try assumption.
    + destruct Hreq as [[-> _] | [-> _]]; lia.
    + destruct Hreq as [[-> _] | [-> _]]; lia.
    + destruct Hreq as [[Hr Hflag] | [Hr [Hflag _]]]; rewrite Hr.
      * intros Hn; lia.
      * intros _. right. split; [ reflexivity | ].
        intros (m & Hm & Hfalse). rewrite Hk in Hm. injection Hm as <-.
        congruence.
    + destruct Hreq as [[Hr Hflag] | [Hr [Hflag _]]]; rewrite Hr.
      * intros [[e He] | [_ Hnc]]; [ discriminate | ].
        contradiction Hnc. exists n; split; assumption.
      * reflexivity.
  - contradiction.
  - destruct Hacc as (-> & _ & n & _ & Hc & _ & Hr & Hs & _ & Hf).
    exists (S n). rewrite Hr. repeat apply conj; try assumption; try lia.
    + simpl. rewrite Nat.sub_0_r. exact Hs.
    + intros [[e He] | [He _]]; discriminate.
  - destruct Hacc as (n & Hc & _ & Hr & Hs & _ & Hf & _).
    exists n. rewrite Hr. repeat apply conj; try assumption; try lia.
    intros _. left. exists e; reflexivity.
  - destruct Hacc as (Hc & _ & Hr & Hs & _ & Hf & _).
    exists (checks st). rewrite Hr. repeat apply conj; try assumption; try lia.
    intros [[e He] | [He _]]; discriminate.
Qed.

(** X6. Without cancellation and with no write to standard output failing, a
    call that returns [True] or raises has ended at the first answer that is
    not a failed attempt: it is the answer to the last request, every answer
    before it was a failed attempt, and [count] is the number of those. *)
Theorem ends_at_first_answer_not_failed (w : World) (fuel : nat)
    (galaxy_url : string) (verbose : bool) (timeout : Z)
    (sleep_condition : option SharedCondition) (api_key : option string) :
  let url := version_url galaxy_url api_key in
  let r := galaxy_wait w fuel galaxy_url verbose timeout sleep_condition
                       api_key in
  can_write verbose w ->
  (forall i, sleep (condition_of sleep_condition i) = true) ->
  fst r = Returned true \/ (exists e, fst r = Raised e) ->
  exists n : nat,
    all_failed w url n
    /\ failed_attempt (w n url) = false
    /\ length (requests_log (snd r)) = S n
    /\ count (snd r) = Z.of_nat n
    /\ (fst r = Returned true -> exists v, successful (w n url) = Some v).
Proof.
  intros url r Hcan Hflags. subst r.
  destruct (galaxy_wait_accounted w fuel galaxy_url verbose timeout
              sleep_condition api_key) as (sig & st & -> & Hacc & _).
  fold url in Hacc.
  destruct sig as [[] | [ | b | e | ]]; simpl in *.
  - intros _. destruct Hacc as (n & Hc & _ & _ & _ & Hf & _ & Hreq).
    destruct Hreq as [[_ Hflag] | [Hr [_ (v & Hv & _)]]].
    + rewrite Hflags in Hflag. discriminate.
    + exists n. repeat apply conj; try assumption.
      * apply Hf, Hcan.
      * apply (successful_not_failed _ v Hv).
      * intros _. exists v; exact Hv.
  - contradiction.
  - destruct Hacc as (-> & _). intros [H | [e H]]; discriminate.
  - intros _. destruct Hacc as (n & Hc & _ & Hr & _ & _ & Hf & _ & Hesc).
    exists n. repeat apply conj; try assumption.
    + apply Hf, Hcan.
    + specialize (Hesc Hcan).
      destruct (failed_attempt (w n url)) eqn:Hfa; [ | reflexivity ].
      rewrite (judge_failed verbose _ Hfa) in Hesc. discriminate.
    + discriminate.
  - intros [H | [e H]]; discriminate.
Qed.

Lemma ends_at_first_answer_not_failed_witness :
  exists n : nat,
    all_failed (refused_then_up 3) "http://localhost:8080/api/version" n
    /\ failed_attempt (refused_then_up 3 n "http://localhost:8080/api/version")
       = false
    /\ length (requests_log
                 (snd (galaxy_wait (refused_then_up 3) 9 "http://localhost:8080"
                                   true 0 None None))) = S n
    /\ count (snd (galaxy_wait (refused_then_up 3) 9 "http://localhost:8080"
                               true 0 None None)) = Z.of_nat n.
Proof.
  destruct (ends_at_first_answer_not_failed
              (refused_then_up 3) 9 "http://localhost:8080" true 0 None None)
    as (n & H1 & H2 & H3 & H4 & _).
  - right. apply reliable_console_ok.
  - intros i. reflexivity.
  - left. reflexivity.
  - exists n. repeat apply conj; assumption.
Defined.

(** X7. Failed attempts of all three kinds are interchangeable when no write
    to standard output fails: two targets whose answers are equal, or are
    both failed attempts of whatever kind (a refused connection, a 403, a
    body that is not JSON), make the call end alike, with the same requests,
    [count], sleeps and standard error. *)
Theorem failed_attempts_are_interchangeable (w1 w2 : World) (fuel : nat)
    (galaxy_url : string) (verbose : bool) (timeout : Z)
    (sleep_condition : option SharedCondition) (api_key : option string) :
  can_write verbose w1 ->
  can_write verbose w2 ->
  (forall n u,
      w1 n u = w2 n u
      \/ (failed_attempt (w1 n u) = true /\ failed_attempt (w2 n u) = true)) ->
  fst (galaxy_wait w1 fuel galaxy_url verbose timeout sleep_condition api_key)
  = fst (galaxy_wait w2 fuel galaxy_url verbose timeout sleep_condition api_key)
  /\ obs (snd (galaxy_wait w1 fuel galaxy_url verbose timeout sleep_condition
                           api_key))
     = obs (snd (galaxy_wait w2 fuel galaxy_url verbose timeout sleep_condition
                             api_key)).
Proof.
  intros Hcan1 Hcan2 Hw. apply galaxy_wait_agree; try assumption. intros n.
  destruct (Hw n (version_url galaxy_url api_key)) as [-> | [H1 H2]];
    [ reflexivity | ].
  rewrite !judge_failed by assumption. reflexivity.
Qed.

Lemma failed_attempts_are_interchangeable_witness :
  fst (galaxy_wait never_json 9 "http://localhost:8080" true 2 None None)
  = fst (galaxy_wait always_refused 9 "http://localhost:8080" true 2 None None).
Proof.
  apply (failed_attempts_are_interchangeable
           never_json always_refused 9 "http://localhost:8080" true 2 None
           None).
  - right. apply reliable_console_ok.
  - right. apply reliable_console_ok.
  - intros n u. right. split; reflexivity.
Defined.

(** X8. When the console takes every write and no successful response lacks
    ['version_major'], [verbose] changes standard output and nothing else:
    the outcome, the requests, [count], the sleeps and standard error are
    those of the quiet call. *)
Theorem verbose_changes_stdout_only (w : World) (fuel : nat)
    (galaxy_url : string) (timeout : Z)
    (sleep_condition : option SharedCondition) (api_key : option string) :
  console_ok w ->
  (forall n v,
      successful (w n (version_url galaxy_url api_key)) = Some v ->
      exists vm, getitem v "version_major" = inr vm) ->
  fst (galaxy_wait w fuel galaxy_url true timeout sleep_condition api_key)
  = fst (galaxy_wait w fuel galaxy_url false timeout sleep_condition api_key)
  /\ obs (snd (galaxy_wait w fuel galaxy_url true timeout sleep_condition
                           api_key))
     = obs (snd (galaxy_wait w fuel galaxy_url false timeout sleep_condition
                             api_key)).
Proof.
  intros Hok Hkey.
  apply galaxy_wait_agree; [ right; exact Hok | left; reflexivity | ].
  intros n. specialize (Hkey n). unfold successful in Hkey. unfold judge.
  destruct (w n (version_url galaxy_url api_key)) as [e | result];
    [ reflexivity | ].
  destruct (status_code result =? 403); [ reflexivity | ].
  destruct (json_result result) as [e | v]; [ reflexivity | ].
  destruct (Hkey v eq_refl) as [vm ->]. reflexivity.
Qed.

Lemma verbose_changes_stdout_only_witness :
  fst (galaxy_wait (refused_then_up 3) 9 "http://localhost:8080" true 0 None
                   None)
  = fst (galaxy_wait (refused_then_up 3) 9 "http://localhost:8080" false 0 None
                     None).
Proof.
  apply (verbose_changes_stdout_only
           (refused_then_up 3) 9 "http://localhost:8080" 0 None None).
  - apply reliable_console_ok.
  - intros n v. unfold refused_then_up, on_reliable_console; simpl.
    destruct (n <? 3)%nat; simpl; [ discriminate | ].
    intros [= <-]. eexists; reflexivity.
Defined.

(** ** Standard output under [verbose] *)
Section Narration.
Variables (w : World) (url : string) (timeout : Z) (sc : SharedCondition).
Hypothesis Hok : console_ok w.

Lemma loop_body_stdout (st : State) :
  stdout (snd (loop_body w url true timeout st))
  = (stdout st ++ narration (count st) (w (length (requests_log st)) url))%list.
Proof.
  destruct (attempt_judged w url true st (or_intror Hok)) as [_ <-].
  unfold loop_body, bind at 1.
  destruct (attempt w url true st) as [[[] | c] st1]; [ | reflexivity ].
  unfold_py; simpl.
  destruct (negb (timeout =? 0) && (count st1 + 1 >? timeout)); reflexivity.
Qed.

Lemma narrated_S (n : nat) :
  narrated w url (S n)
  = (narrated w url n ++ narration (Z.of_nat n) (w n url))%list.
Proof.
  unfold narrated. rewrite seq_S, flat_map_app. simpl.
  rewrite app_nil_r. reflexivity.
Qed.

(** From a check on, standard output stays the narration of the requests
    made. *)
Lemma loop_narrated (fuel : nat) :
  forall st,
    count st = Z.of_nat (length (requests_log st)) ->
    stdout st = narrated w url (length (requests_log st)) ->
    stdout (snd (loop w url true timeout sc fuel st))
    = narrated w url
               (length (requests_log (snd (loop w url true timeout sc fuel st)))).
Proof.
  induction fuel as [| fuel IH]; intros st Hc Hout.
  - exact Hout.
  - destruct (sleep (sc (checks st))) eqn:Hflag.
    + rewrite (loop_step w url true timeout sc fuel st Hflag).
      pose proof (loop_body_stdout (add_check st)) as Hbody.
      destruct (loop_body_step w url true timeout (add_check st))
        as (sig & st' & Heq & Hstep).
      rewrite Heq in Hbody |- *. simpl in Hbody.
      rewrite Hc, Hout, <- narrated_S in Hbody.
      assert (Hreq : length (requests_log st')
                     = S (length (requests_log st)))
        by (destruct Hstep; simpl; rewrite length_app; simpl; lia).
      rewrite <- Hreq in Hbody.
      destruct Hstep; simpl fst; simpl snd; cbv iota; try exact Hbody.
      apply IH; [ | exact Hbody ].
      simpl. rewrite length_app; simpl. lia.
    + rewrite (loop_cancelled w url true timeout sc fuel st Hflag). exact Hout.
Qed.
End Narration.

(** X9. Under [verbose] and on a console that takes every write, standard
    output is the narration of the requests made, in order and at any
    moment: one line for each answer that is a connection failure, a 403, a
    body that is not JSON or a success, none for an answer that makes the
    call raise; the line of a failed attempt carries the number of the
    attempt, from 0, and that of a connection failure the first 100
    characters of the error text. *)
Theorem verbose_narrates_every_request (w : World) (fuel : nat)
    (galaxy_url : string) (timeout : Z)
    (sleep_condition : option SharedCondition) (api_key : option string) :
  console_ok w ->
  let r := galaxy_wait w fuel galaxy_url true timeout sleep_condition api_key in
  stdout (snd r)
  = narrated w (version_url galaxy_url api_key)
             (length (requests_log (snd r))).
Proof.
  intros Hok r. subst r. rewrite galaxy_wait_loop.
  pose proof (loop_narrated w (version_url galaxy_url api_key) timeout
                (condition_of sleep_condition) Hok fuel init_state
                eq_refl eq_refl) as H.
  destruct (loop _ _ _ _ _ fuel init_state) as [[[] | []] st]; exact H.
Qed.

Lemma verbose_narrates_every_request_witness :
  stdout (snd (galaxy_wait not_json_then_up 5 "http://localhost:8080" true 0
                           None None))
  = [("[%02d] No valid json returned... %s\n", [ArgInt 0; ArgResponse 200]);
     ("Galaxy Version: %s\n", [ArgValue (PyStr "1")])].
Proof.
  rewrite (verbose_narrates_every_request
             not_json_then_up 5 "http://localhost:8080" 0 None None
             (reliable_console_ok _)).
  reflexivity.
Defined.

(** ** Cancellation bounds the wait *)

(** X10. Cancellation bounds the wait: if the [sleep] flag of the condition
    is false at its [n]-th evaluation (from 0), the call makes at most [n]
    requests, whatever the target answers, and has ended once the condition
    has been evaluated [n + 1] times. *)
Theorem cancellation_bounds_the_wait (w : World) (fuel n : nat)
    (galaxy_url : string) (verbose : bool) (timeout : Z)
    (sleep_condition : option SharedCondition) (api_key : option string) :
  sleep (condition_of sleep_condition n) = false ->
  let r := galaxy_wait w fuel galaxy_url verbose timeout sleep_condition
                       api_key in
  (length (requests_log (snd r)) <= n)%nat
  /\ ((n < fuel)%nat -> fst r <> Polling).
Proof.
  intros Hn r. subst r. rewrite galaxy_wait_loop.
  set (url := version_url galaxy_url api_key).
  set (sc := condition_of sleep_condition) in *.
  pose proof (loop_accounted w url verbose timeout sc fuel init_state
                             (init_at_check _ _ _ _)) as Hacc.
  pose proof (loop_unfinished_checks w url verbose timeout sc fuel init_state)
    as Hfuel.
  pose proof (loop_checks_bound w url verbose timeout sc n fuel init_state Hn
                                (Nat.le_0_l n)) as Hle.
  destruct (loop w url verbose timeout sc fuel init_state) as [sig st].
  destruct sig as [[] | [ | b | e | ]]; simpl in *.
  - destruct Hacc as (m & _ & Hk & _ & _ & _ & _ & Hreq).
    split; [ | discriminate ].
    destruct Hreq as [[-> _] | [-> [Hflag _]]]; [ lia | ].
    destruct (Nat.eq_dec m n) as [-> | Hne]; [ congruence | lia ].
  - contradiction.
  - destruct Hacc as (_ & _ & m & _ & _ & Hk & -> & _).
    split; [ lia | discriminate ].
  - destruct Hacc as (m & _ & Hk & -> & _).
    split; [ lia | discriminate ].
  - destruct Hacc as (_ & _ & Hr & _).
    split; [ lia | ].
    intros Hlt _. specialize (Hfuel eq_refl). simpl in Hfuel. lia.
Qed.

Lemma cancellation_bounds_the_wait_witness :
  (length (requests_log
             (snd (galaxy_wait always_refused 9 "http://localhost:8080" false 0
                               (Some (cancel_after 2)) None))) <= 2)%nat
  /\ fst (galaxy_wait always_refused 9 "http://localhost:8080" false 0
                      (Some (cancel_after 2)) None) <> Polling.
Proof.
  destruct (cancellation_bounds_the_wait
              always_refused 9 2 "http://localhost:8080" false 0
              (Some (cancel_after 2)) None) as [H1 H2].
  - reflexivity.
  - split; [ exact H1 | apply H2; lia ].
Defined.

(** ** The URL without a key *)

(** X11. Without [api_key], and with the empty string as [api_key], every
    request of the call goes to the base URL followed by ["/api/version"]: no
    ["?"] is appended. *)
Theorem no_key_no_query_string (w : World) (fuel : nat)
    (galaxy_url : string) (verbose : bool) (timeout : Z)
    (sleep_condition : option SharedCondition) (api_key : option string) :
  api_key = None \/ api_key = Some "" ->
  Forall (eq (galaxy_url ++ "/api/version"))
         (requests_log
            (snd (galaxy_wait w fuel galaxy_url verbose timeout sleep_condition
                              api_key))).
Proof.
  intros Hkey.
  assert (Hurl : version_url galaxy_url api_key = galaxy_url ++ "/api/version")
    by (destruct Hkey as [-> | ->]; reflexivity).
  rewrite <- Hurl. apply galaxy_wait_quiet.
Qed.

Lemma no_key_no_query_string_witness :
  Forall (eq ("http://localhost:8080" ++ "/api/version"))
         (requests_log
            (snd (galaxy_wait always_refused 4 "http://localhost:8080" false 0
                              None (Some "")))).
Proof.
  apply (no_key_no_query_string always_refused 4 "http://localhost:8080" false
                                0 None (Some "")).
  right. reflexivity.
Defined.

(** ** [main] *)



(** X13. With the default [--timeout 0], a target whose every answer is a
    failed attempt and no write to standard output failing, the process never
    exits: after any number of iterations it is still running, having made
    one request per iteration and written nothing to standard error. *)
Theorem main_waits_for_ever (w : World) (fuel : nat) (options : Options.t) :
  Options.timeout options = 0 ->
  can_write (Options.verbose options) w ->
  (forall i, failed_attempt
               (w i (version_url (Options.galaxy options)
                                 (Options.api_key options))) = true) ->
  exit_status (fst (main w fuel options)) = None
  /\ length (requests_log (snd (main w fuel options))) = fuel
  /\ stderr (snd (main w fuel options)) = [].
Proof.
  intros Hz Hcan Hfail. unfold main. rewrite galaxy_wait_loop, Hz.
  destruct (loop_failed_run w (version_url (Options.galaxy options)
                                           (Options.api_key options))
              (Options.verbose options) 0 (condition_of None) fuel 0 init_state
              Hcan)
    as (st' & Hrun & Hadv).
  - intros i _. apply Hfail.
  - intros i _. reflexivity.
  - left; reflexivity.
  - rewrite Nat.add_0_r in Hrun. rewrite Hrun. simpl.
    destruct Hadv as (_ & _ & Hr & _ & He & _). rewrite Hr, He. simpl.
    repeat split. apply repeat_length.
Qed.

Lemma main_waits_for_ever_witness :
  exit_status
    (fst (main always_refused 25
               (Options.mk "http://localhost:8080" true 0 None))) = None.
Proof.
  apply (main_waits_for_ever always_refused 25
           (Options.mk "http://localhost:8080" true 0 None)).
  - reflexivity.
  - right. apply reliable_console_ok.
  - intros i. reflexivity.
Defined.

(** ** Cancelling after [n] failed attempts *)

Lemma cancel_after_before (n i : nat) :
  (i < n)%nat -> sleep (cancel_after n i) = true.
Proof.
  intros Hi. unfold cancel_after.
  destruct (Nat.ltb_spec i n); [ reflexivity | lia ].
Qed.

Lemma cancel_after_from (n i : nat) :
  (n <= i)%nat -> sleep (cancel_after n i) = false.
Proof.
  intros Hi. unfold cancel_after.
  destruct (Nat.ltb_spec i n); [ lia | reflexivity ].
Qed.

(** X14. An owner who calls [cancel] on a fresh [SleepCondition] after [n]
    failed attempts (within the timeout, no write to standard output failing)
    makes the call return [True] with [count = n], after exactly [n] requests
    and [n] sleeps and with nothing on standard error: the return value is
    that of a success, but no request was answered by one. *)
Theorem cancel_after_n_failures (w : World) (fuel n : nat)
    (galaxy_url : string) (verbose : bool) (timeout : Z)
    (api_key : option string) :
  can_write verbose w ->
  all_failed w (version_url galaxy_url api_key) n ->
  timeout = 0 \/ Z.of_nat n <= timeout ->
  (n < fuel)%nat ->
  exists st,
    galaxy_wait w fuel galaxy_url verbose timeout (Some (cancel_after n))
                api_key
    = (Returned true, st)
    /\ requests_log st = repeat (version_url galaxy_url api_key) n
    /\ count st = Z.of_nat n
    /\ sleeps st = repeat DEFAULT_SLEEP_WAIT n
    /\ stderr st = [].
Proof.
  intros Hcan Hfail Htime Hfuel. rewrite galaxy_wait_loop. simpl condition_of.
  set (url := version_url galaxy_url api_key) in *.
  destruct (loop_failed_run w url verbose timeout (cancel_after n) n (fuel - n)
                            init_state Hcan) as (st' & Hrun & Hadv).
  - intros i Hi; simpl. apply Hfail, Hi.
  - intros i Hi; simpl. apply cancel_after_before, Hi.
  - simpl. exact Htime.
  - replace (n + (fuel - n))%nat with fuel in Hrun by lia.
    destruct Hadv as (Hc & Hk & Hr & Hs & He & _). simpl in *.
    destruct (fuel - n)%nat as [| f] eqn:Hf; [ lia | ].
    rewrite Hrun, loop_cancelled
      by (rewrite Hk; apply cancel_after_from; lia).
    eexists; split; [ reflexivity | ]. simpl.
    repeat split; assumption.
Qed.

Lemma cancel_after_n_failures_witness :
  exists st,
    galaxy_wait always_refused 9 "http://localhost:8080" false 0
                (Some (cancel_after 2)) None
    = (Returned true, st)
    /\ requests_log st = repeat "http://localhost:8080/api/version" 2
    /\ count st = 2
    /\ sleeps st = [1; 1]
    /\ stderr st = [].
Proof.
  apply (cancel_after_n_failures always_refused 9 2 "http://localhost:8080"
                                 false 0 None).
  - left. reflexivity.
  - intros i _. reflexivity.
  - left; reflexivity.
  - lia.
Defined.

(** ** The time slept *)

Lemma total_repeat (n : nat) :
  fold_right Z.add 0 (repeat DEFAULT_SLEEP_WAIT n) = Z.of_nat n.
Proof.
  induction n as [| n IH]; [ reflexivity | ].
  cbn [repeat fold_right]. rewrite IH. unfold DEFAULT_SLEEP_WAIT. lia.
Qed.

(** X15. The timeout counts sleeps of one second: a call that returns [False]
    has slept [max(timeout, 0)] seconds in all, and a call that is polling,
    has returned [True] or has raised has slept [count] seconds. *)
Theorem seconds_slept (w : World) (fuel : nat)
    (galaxy_url : string) (verbose : bool) (timeout : Z)
    (sleep_condition : option SharedCondition) (api_key : option string) :
  let r := galaxy_wait w fuel galaxy_url verbose timeout sleep_condition
                       api_key in
  total_sleep (snd r)
  = match fst r with
    | Returned false => Z.max 0 timeout
    | _ => count (snd r)
    end.
Proof.
  intros r. subst r. unfold total_sleep.
  destruct (galaxy_wait_accounted w fuel galaxy_url verbose timeout
              sleep_condition api_key) as (sig & st & -> & Hacc & _).
  destruct sig as [[] | [ | b | e | ]]; simpl in *.
  - destruct Hacc as (n & -> & _ & -> & _). apply total_repeat.
  - contradiction.
  - destruct Hacc as (-> & _ & n & <- & _ & _ & _ & -> & _). apply total_repeat.
  - destruct Hacc as (n & -> & _ & _ & -> & _). apply total_repeat.
  - destruct Hacc as (-> & _ & _ & -> & _). apply total_repeat.
Qed.

(** ** What the handlers do not catch, and what they catch by accident *)


